(** * Asterisk-Globe: geometry utilities, animation formulas and the PlotManager

    A shallow embedding of the layer/geometry core of the repository:

    - [GlobeUtils]   : globeUtils.js  ([latLngToVector3], [vector3ToLatLng],
                       [createArcCurve]) together with the few THREE.js vector
                       operations these functions call;
    - [Geocoding]    : [validation.isValidCoordinate] and
                       [getIntermediatePoints];
    - [Animation]    : the animation closures of PlotManager.js;
    - [Manager]      : [LayerGenerators] and the [PlotManager] class.

    JavaScript numbers are IEEE doubles.  They are idealised here as real
    numbers ([R]); where a computation of the source can leave the finite
    numbers (a division by zero) the module [Geocoding] uses the extended
    type [num] that has [NaN] and the two infinities. *)

From Stdlib Require Import Reals Lra Lia ZArith List Ascii Sorted.
From stdpp Require Import gmap strings list fin_maps pretty.

Local Open Scope R_scope.

(** ** JavaScript completions and Math functions on the reals *)

Module Js.

Record Error := mkError { name : string; message : string }.

(** A call either returns a value or throws. *)
Inductive Completion (A : Type) : Type :=
| Returned (v : A)
| Thrown (e : Error).
Arguments Returned {A} v.
Arguments Thrown {A} e.

Definition TypeError (msg : string) : Error := mkError "TypeError" msg.
Definition PlainError (msg : string) : Error := mkError "Error" msg.

(** [Math.atan2 y x] on the reals.  The sign of a zero is not tracked: for
    [x < 0] and a zero [y] the answer here is [PI], where [Math.atan2]
    answers [PI] for [+0] and [- PI] for [-0]; statements about the range
    of the answer therefore use the closed interval from [- PI] to [PI]. *)
Definition atan2 (y x : R) : R :=
  if Rlt_dec 0 x then atan (y / x)
  else if Rlt_dec x 0 then
         (if Rle_dec 0 y then atan (y / x) + PI else atan (y / x) - PI)
  else if Rlt_dec 0 y then PI / 2
  else if Rlt_dec y 0 then - (PI / 2)
  else 0.

(** [a % b] on the reals for [b <> 0]: the remainder has the sign of the
    dividend, the quotient is truncated towards zero. *)
Definition trunc (x : R) : Z :=
  if Rle_dec 0 x then Zfloor x else Zceil x.

Definition rem (a b : R) : R := a - b * IZR (trunc (a / b)).

End Js.

(** ** JavaScript numbers that can leave the finite range *)

Module Num.

Inductive num := Fin (r : R) | PInf | NInf | NaN.

Definition pos_inf (positive : bool) : num := if positive then PInf else NInf.

(** The sign of a number as a boolean ([true] for non-negative); the sign
    of a zero is not tracked and counts as positive. *)
Definition nonneg (r : R) : bool := if Rle_dec 0 r then true else false.

Definition fadd (a b : num) : num :=
  match a, b with
  | NaN, _ | _, NaN => NaN
  | Fin x, Fin y => Fin (x + y)
  | PInf, NInf | NInf, PInf => NaN
  | PInf, _ | _, PInf => PInf
  | NInf, _ | _, NInf => NInf
  end.

Definition fneg (a : num) : num :=
  match a with Fin x => Fin (- x) | PInf => NInf | NInf => PInf | NaN => NaN end.

Definition fsub (a b : num) : num := fadd a (fneg b).

Definition inf_times (positive : bool) (y : R) : num :=
  if Req_dec_T y 0 then NaN else pos_inf (Bool.eqb positive (nonneg y)).

Definition fmul (a b : num) : num :=
  match a, b with
  | NaN, _ | _, NaN => NaN
  | Fin x, Fin y => Fin (x * y)
  | PInf, Fin y | Fin y, PInf => inf_times true y
  | NInf, Fin y | Fin y, NInf => inf_times false y
  | PInf, PInf | NInf, NInf => PInf
  | PInf, NInf | NInf, PInf => NInf
  end.

Definition fdiv (a b : num) : num :=
  match a, b with
  | NaN, _ | _, NaN => NaN
  | Fin x, Fin y =>
      if Req_dec_T y 0
      then (if Req_dec_T x 0 then NaN else pos_inf (nonneg x))
      else Fin (x / y)
  | Fin _, (PInf | NInf) => Fin 0
  | PInf, Fin y => pos_inf (nonneg y)
  | NInf, Fin y => pos_inf (negb (nonneg y))
  | (PInf | NInf), (PInf | NInf) => NaN
  end.

Definition lift (f : R -> R) (a : num) : num :=
  match a with Fin x => Fin (f x) | _ => NaN end.

Definition fsin := lift sin.
Definition fcos := lift cos.

Definition fsqrt (a : num) : num :=
  match a with
  | Fin x => if Rle_dec 0 x then Fin (sqrt x) else NaN
  | PInf => PInf
  | _ => NaN
  end.

Definition fasin (a : num) : num :=
  match a with
  | Fin x => if Rle_dec (Rabs x) 1 then Fin (asin x) else NaN
  | _ => NaN
  end.

(** [Math.pow(x, 2)] *)
Definition fsquare (a : num) : num := fmul a a.

Definition fatan2 (y x : num) : num :=
  match y, x with
  | NaN, _ | _, NaN => NaN
  | Fin b, Fin a => Fin (Js.atan2 b a)
  | Fin b, PInf => Fin 0
  | Fin b, NInf => Fin (if nonneg b then PI else - PI)
  | PInf, Fin _ => Fin (PI / 2)
  | NInf, Fin _ => Fin (- (PI / 2))
  | PInf, PInf => Fin (PI / 4)
  | NInf, PInf => Fin (- (PI / 4))
  | PInf, NInf => Fin (3 * PI / 4)
  | NInf, NInf => Fin (- (3 * PI / 4))
  end.

(** [a <= b]; every comparison with [NaN] is false. *)
Definition fle (a b : num) : bool :=
  match a, b with
  | NaN, _ | _, NaN => false
  | Fin x, Fin y => if Rle_dec x y then true else false
  | NInf, _ | _, PInf => true
  | _, _ => false
  end.

End Num.

(** ** globeUtils.js *)

Module GlobeUtils.

(** [GLOBE_CONFIG.radius] *)
Definition GLOBE_radius : R := 5.

(** THREE.Vector3 *)
Record Vector3 := vec3 { vx : R; vy : R; vz : R }.

Definition length (v : Vector3) : R :=
  sqrt (vx v * vx v + vy v * vy v + vz v * vz v).

Definition multiplyScalar (s : R) (v : Vector3) : Vector3 :=
  vec3 (vx v * s) (vy v * s) (vz v * s).

Definition divideScalar (s : R) (v : Vector3) : Vector3 :=
  multiplyScalar (1 / s) v.

Definition add (v w : Vector3) : Vector3 :=
  vec3 (vx v + vx w) (vy v + vy w) (vz v + vz w).

(** [normalize() = divideScalar(length() || 1)].  The test of the length
    is exact on the reals; sums that cancel exactly here may leave a
    rounding residue in floating point, which the source then scales to
    length 1. *)
Definition normalize (v : Vector3) : Vector3 :=
  divideScalar (if Req_dec_T (length v) 0 then 1 else length v) v.

Record LatLng := latlng { lat : R; lng : R }.

(** The parameter [radius] of the next two functions defaults to
    [GLOBE_CONFIG.radius] in the source; here it is always passed. *)
Definition latLngToVector3 (lat lng radius : R) : Vector3 :=
  let phi := (90 - lat) * (PI / 180) in
  let theta := (lng + 180) * (PI / 180) in
  let x := - (radius * sin phi * cos theta) in
  let z := radius * sin phi * sin theta in
  let y := radius * cos phi in
  vec3 x y z.

Definition vector3ToLatLng (vector : Vector3) (radius : R) : LatLng :=
  let normalizedVector := multiplyScalar radius (normalize vector) in
  let lat := 90 - (acos (vy normalizedVector / radius) * 180 / PI) in
  let lng := (Js.atan2 (vz normalizedVector) (- vx normalizedVector) * 180 / PI) - 180 in
  latlng lat lng.

(** THREE.QuadraticBezierCurve3 and its [getPoint] *)
Record QuadraticBezierCurve3 := curve3 { v0 : Vector3; v1 : Vector3; v2 : Vector3 }.

Definition QuadraticBezierP0 (t p : R) : R := let k := 1 - t in k * k * p.
Definition QuadraticBezierP1 (t p : R) : R := 2 * (1 - t) * t * p.
Definition QuadraticBezierP2 (t p : R) : R := t * t * p.
Definition QuadraticBezier (t p0 p1 p2 : R) : R :=
  QuadraticBezierP0 t p0 + QuadraticBezierP1 t p1 + QuadraticBezierP2 t p2.

Definition getPoint (c : QuadraticBezierCurve3) (t : R) : Vector3 :=
  vec3 (QuadraticBezier t (vx (v0 c)) (vx (v1 c)) (vx (v2 c)))
       (QuadraticBezier t (vy (v0 c)) (vy (v1 c)) (vy (v2 c)))
       (QuadraticBezier t (vz (v0 c)) (vz (v1 c)) (vz (v2 c))).

(** [arcHeight] defaults to 2 in the source; here it is always passed. *)
Definition createArcCurve (startLatLng endLatLng : LatLng) (arcHeight : R)
  : QuadraticBezierCurve3 :=
  let startVector := latLngToVector3 (lat startLatLng) (lng startLatLng) GLOBE_radius in
  let endVector := latLngToVector3 (lat endLatLng) (lng endLatLng) GLOBE_radius in
  let midVector := multiplyScalar 0.5 (add startVector endVector) in
  let midVector := multiplyScalar (GLOBE_radius + arcHeight) (normalize midVector) in
  curve3 startVector midVector endVector.

End GlobeUtils.

(** ** apiService.js ([validation]) and geocoding.js *)

Module Geocoding.

Import Num.

Record Coordinate := coord { latitude : num; longitude : num }.

(** [validation.isValidCoordinate]; both arguments are numbers by typing. *)
Definition isValidCoordinate (lat lng : num) : bool :=
  fle (Fin (-90)) lat && fle lat (Fin 90) &&
  fle (Fin (-180)) lng && fle lng (Fin 180).

Definition deg2rad (a : num) : num := fdiv (fmul a (Fin PI)) (Fin 180).
Definition rad2deg (a : num) : num := fdiv (fmul a (Fin 180)) (Fin PI).

(** [numPoints] (default 10 in the source) is a natural number; the loop
    runs for [i = 0, ..., numPoints]. *)
Definition getIntermediatePoints (start end_ : Coordinate) (numPoints : nat)
  : Js.Completion (list Coordinate) :=
  if negb (isValidCoordinate (latitude start) (longitude start))
     || negb (isValidCoordinate (latitude end_) (longitude end_))
  then Js.Thrown (Js.PlainError "Invalid coordinates provided")
  else
    let lat1 := deg2rad (latitude start) in
    let lng1 := deg2rad (longitude start) in
    let lat2 := deg2rad (latitude end_) in
    let lng2 := deg2rad (longitude end_) in
    let d :=
      fmul (Fin 2) (fasin (fsqrt (
        fadd (fsquare (fsin (fdiv (fsub lat1 lat2) (Fin 2))))
             (fmul (fmul (fcos lat1) (fcos lat2))
                   (fsquare (fsin (fdiv (fsub lng1 lng2) (Fin 2)))))))) in
    Js.Returned
      (List.map
         (fun i : nat =>
            let f := fdiv (Fin (INR i)) (Fin (INR numPoints)) in
            let a := fdiv (fsin (fmul (fsub (Fin 1) f) d)) (fsin d) in
            let b := fdiv (fsin (fmul f d)) (fsin d) in
            let x := fadd (fmul (fmul a (fcos lat1)) (fcos lng1))
                          (fmul (fmul b (fcos lat2)) (fcos lng2)) in
            let y := fadd (fmul (fmul a (fcos lat1)) (fsin lng1))
                          (fmul (fmul b (fcos lat2)) (fsin lng2)) in
            let z := fadd (fmul a (fsin lat1)) (fmul b (fsin lat2)) in
            let lat := fatan2 z (fsqrt (fadd (fmul x x) (fmul y y))) in
            let lng := fatan2 y x in
            coord (rad2deg lat) (rad2deg lng))
         (seq 0 (S numPoints))).

End Geocoding.

(** ** PlotManager.js: animation utilities *)

Module Animation.

(** Optional parameters are [option R]; [None] is an omitted (undefined)
    argument, which takes the default of the parameter list. *)

Definition createPulseAnimation (baseRadius : R) (pulseIntensity pulseSpeed : option R) : R -> R :=
  let pulseIntensity := default 0.3 pulseIntensity in
  let pulseSpeed := default 2 pulseSpeed in
  fun timestamp =>
    let pulse := sin (timestamp * 0.001 * pulseSpeed) * pulseIntensity + 1 in
    baseRadius * pulse.

Definition createGlowAnimation (baseOpacity : R) (glowIntensity glowSpeed : option R) : R -> R :=
  let glowIntensity := default 0.5 glowIntensity in
  let glowSpeed := default 1.5 glowSpeed in
  fun timestamp =>
    let glow := sin (timestamp * 0.001 * glowSpeed) * glowIntensity + glowIntensity in
    Rmin 1 (baseOpacity + glow).

Definition createExplosionAnimation (baseRadius maxRadius : R) (duration : option R) : R -> R :=
  let duration := default 2000 duration in
  fun timestamp =>
    let elapsed := Js.rem timestamp duration in
    let progress := elapsed / duration in
    let easeOut := 1 - (1 - progress) ^ 3 in
    baseRadius + (maxRadius - baseRadius) * easeOut.

(** The glow formula as the specification words it (phase factor 0.0015). *)
Definition spec_glow_opacity (baseOpacity glowIntensity glowSpeed t : R) : R :=
  Rmin 1 (baseOpacity + glowIntensity * sin (t * 0.0015 * glowSpeed) + glowIntensity).

End Animation.

(** ** PlotManager.js: layer generators and the PlotManager class *)

Module Manager.

Import Js.

(** *** Data carried by instructions *)

Definition Color := list Z.

(** A point record of [data]; an absent field is [None]. *)
Record Datum := mkDatum {
  longitude : option R; lng : option R;
  latitude : option R; lat : option R }.

Definition Data := list Datum.

(** The option keys read by the generators of the source; an omitted key
    is [None]. *)
Record Options := mkOptions {
  baseRadius : option R;
  pulseIntensity : option R;
  pulseSpeed : option R;
  color : option Color;
  strokeColor : option Color;
  strokeWidth : option R;
  height : option R;
  pickable : option bool;
  sourceColor : option Color;
  targetColor : option Color;
  opacity : option R }.

(** The empty object [{}] *)
Definition no_options : Options :=
  mkOptions None None None None None None None None None None None.

Definition spread_field {A} (old new : option A) : option A :=
  match new with Some v => Some v | None => old end.

(** [{ ...old, ...new }] *)
Definition spread (old new : Options) : Options :=
  mkOptions
    (spread_field (baseRadius old) (baseRadius new))
    (spread_field (pulseIntensity old) (pulseIntensity new))
    (spread_field (pulseSpeed old) (pulseSpeed new))
    (spread_field (color old) (color new))
    (spread_field (strokeColor old) (strokeColor new))
    (spread_field (strokeWidth old) (strokeWidth new))
    (spread_field (height old) (height new))
    (spread_field (pickable old) (pickable new))
    (spread_field (sourceColor old) (sourceColor new))
    (spread_field (targetColor old) (targetColor new))
    (spread_field (opacity old) (opacity new)).

(** [a || b] on an optional number: undefined and 0 are falsy. *)
Definition num_or (a : option R) (b : R) : R :=
  match a with
  | Some x => if Req_dec_T x 0 then b else x
  | None => b
  end.

(** *** deck.gl layers (the props the generators set) *)

Record ScatterplotProps := mkScatterplot {
  sp_id : string;
  sp_data : Data;
  sp_getPosition : Datum -> R * R * R;
  sp_getRadius : option R -> R;       (* argument: the [timestamp] property *)
  sp_getFillColor : Color;
  sp_stroked : bool;
  sp_getLineColor : Color;
  sp_lineWidthMinPixels : R;
  sp_pickable : bool;
  sp_opacity : R;
  sp_filled : bool;
  sp_updateTriggers_getRadius : list R }.

(** The two position accessors of the arc layer are run by the renderer
    only and are left out. *)
Record ArcProps := mkArc {
  arc_id : string;
  arc_data : Data;
  arc_getSourceColor : Color;
  arc_getTargetColor : Color;
  arc_strokeWidth : R;
  arc_pickable : bool;
  arc_greatCircle : bool;
  arc_opacity : R }.

Inductive Layer :=
| ScatterplotLayer (props : ScatterplotProps)
| ArcLayer (props : ArcProps).

(** *** class LayerGenerators *)

Definition createPulsingDotLayer (id : string) (data : Data) (options : Options) : Layer :=
  let baseRadius := default 10000 (baseRadius options) in
  let pulseIntensity := default 0.3 (pulseIntensity options) in
  let pulseSpeed := default 2 (pulseSpeed options) in
  let color := default [255; 0; 0; 180]%Z (color options) in
  let strokeColor := default [255; 255; 255; 255]%Z (strokeColor options) in
  let strokeWidth := default 1 (strokeWidth options) in
  let height := default 50000 (height options) in
  let pickable := default true (pickable options) in
  ScatterplotLayer {|
    sp_id := "pulsing-dot-" +:+ id;
    sp_data := data;
    sp_getPosition := fun d =>
      (num_or (longitude d) (num_or (lng d) 0),
       num_or (latitude d) (num_or (lat d) 0),
       height);
    sp_getRadius := fun timestamp =>
      baseRadius * (1 + pulseIntensity * sin (num_or timestamp 0 * 0.002 * pulseSpeed));
    sp_getFillColor := color;
    sp_stroked := true;
    sp_getLineColor := strokeColor;
    sp_lineWidthMinPixels := strokeWidth;
    sp_pickable := pickable;
    sp_opacity := 1;
    sp_filled := true;
    sp_updateTriggers_getRadius := [pulseIntensity; pulseSpeed] |}.

Definition createArcLayer (id : string) (data : Data) (options : Options) : Layer :=
  let strokeWidth := default 4 (strokeWidth options) in
  let sourceColor := default [255; 0; 0; 120]%Z (sourceColor options) in
  let targetColor := default [255; 140; 0; 120]%Z (targetColor options) in
  let opacity := default 0.7 (opacity options) in
  let pickable := default true (pickable options) in
  ArcLayer {|
    arc_id := "arc-" +:+ id;
    arc_data := data;
    arc_getSourceColor := sourceColor;
    arc_getTargetColor := targetColor;
    arc_strokeWidth := strokeWidth;
    arc_pickable := pickable;
    arc_greatCircle := true;
    arc_opacity := opacity |}.

(** The static methods the class defines; any other property of
    [LayerGenerators] is [undefined]. *)
Definition LayerGenerators (method : string)
  : option (string -> Data -> Options -> Layer) :=
  if String.eqb method "createPulsingDotLayer" then Some createPulsingDotLayer
  else if String.eqb method "createArcLayer" then Some createArcLayer
  else None.

(** *** Event instructions and stored records *)

(** An omitted [options] or [id] is [None].  The field [visualType] is
    destructured by [addLayer] and never read; it is left out. *)
Record EventInstruction := mkInstruction {
  type : string;
  data : Data;
  options : option Options;
  id : option string }.

Record LayerInfo := mkLayerInfo {
  li_layer : Layer;
  li_type : string;
  li_data : Data;
  li_options : Options;
  li_createdAt : Z }.

(** The fields the constructor sets.  [layers] is a [Map] keyed by layer
    id; its iteration order is not used by what follows. *)
Record PlotManager := mkPlotManager {
  layers : gmap string LayerInfo;
  layerCounter : N;
  animationFrameId : option N;
  lastTimestamp : R;
  timestamp : R }.

Definition constructor : PlotManager :=
  mkPlotManager ∅ 0%N None 0 0.

(** What a method can touch: the manager itself and the host clock read by
    [Date.now()] (the [k]-th read returns [clock k]).  [issued] is an
    observation log of the identifiers returned by [generateLayerId], most
    recent first; no method reads it. *)
Record World := mkWorld {
  this : PlotManager;
  clock : nat -> Z;
  clockReads : nat;
  issued : list string }.

Definition boot (clock : nat -> Z) : World := mkWorld constructor clock 0%nat [].

(** *** Methods run in a state-and-exception monad over [World] *)

Definition M (A : Type) : Type := World -> Completion A * World.

Definition ret {A} (a : A) : M A := fun w => (Returned a, w).
Definition throw {A} (e : Error) : M A := fun w => (Thrown e, w).
Definition bind {A B} (m : M A) (k : A -> M B) : M B :=
  fun w =>
    match m w with
    | (Returned a, w') => k a w'
    | (Thrown e, w') => (Thrown e, w')
    end.
Definition try_catch {A} (m : M A) (handler : Error -> M A) : M A :=
  fun w =>
    match m w with
    | (Returned a, w') => (Returned a, w')
    | (Thrown e, w') => handler e w'
    end.

Notation "'let*' x ':=' m 'in' k" := (bind m (fun x => k))
  (at level 10, x name, m at level 100, k at level 200).
Notation "m ';;' k" := (bind m (fun _ => k))
  (at level 100, k at level 200, right associativity).

Definition get_this : M PlotManager := fun w => (Returned (this w), w).
Definition set_this (pm : PlotManager) : M unit :=
  fun w => (Returned tt, mkWorld pm (clock w) (clockReads w) (issued w)).
Definition Date_now : M Z :=
  fun w => (Returned (clock w (clockReads w)),
            mkWorld (this w) (clock w) (S (clockReads w)) (issued w)).
Definition observe_issued (layerId : string) : M unit :=
  fun w => (Returned tt, mkWorld (this w) (clock w) (clockReads w) (layerId :: issued w)).

Definition set_layers (m : gmap string LayerInfo) (pm : PlotManager) : PlotManager :=
  mkPlotManager m (layerCounter pm) (animationFrameId pm) (lastTimestamp pm) (timestamp pm).
Definition set_layerCounter (c : N) (pm : PlotManager) : PlotManager :=
  mkPlotManager (layers pm) c (animationFrameId pm) (lastTimestamp pm) (timestamp pm).

(** Truthiness of an optional string: undefined, null and the empty string
    are falsy. *)
Definition truthy (s : option string) : bool :=
  match s with
  | Some s => negb (String.eqb s "")
  | None => false
  end.

(** [`${type}-${++this.layerCounter}`] *)
Definition generateLayerId (type : string) : M string :=
  let* pm := get_this in
  let counter := N.succ (layerCounter pm) in
  set_this (set_layerCounter counter pm) ;;
  let layerId := type +:+ "-" +:+ pretty counter in
  observe_issued layerId ;;
  ret layerId.

(** Calling a static method of [LayerGenerators]; calling a property that
    is [undefined] throws a [TypeError]. *)
Definition call_LayerGenerators (method layerId : string) (data : Data) (options : Options)
  : M Layer :=
  match LayerGenerators method with
  | Some f => ret (f layerId data options)
  | None => throw (TypeError ("LayerGenerators." +:+ method +:+ " is not a function"))
  end.

(** The [switch (type)] of [addLayer]: the generator each case calls;
    [None] is the [default] case. *)
Definition switch_type (type : string) : option string :=
  if String.eqb type "pulsing_dot" then Some "createPulsingDotLayer"
  else if String.eqb type "animated_arc" then Some "createArcLayer"
  else if String.eqb type "explosion" then Some "createExplosionLayer"
  else if String.eqb type "glowing_border" then Some "createGlowingBorderLayer"
  else if String.eqb type "directional_arrow" then Some "createDirectionalArrowLayer"
  else if String.eqb type "event_marker" then Some "createEventMarkerLayer"
  else if String.eqb type "area_highlight" then Some "createAreaHighlightLayer"
  else None.

(** [addLayer] returns the layer id, or [null] ([None]) in the [default]
    case ([console.warn] is not modelled). *)
Definition addLayer (eventInstruction : EventInstruction) : M (option string) :=
  let type := type eventInstruction in
  let data := data eventInstruction in
  let options := default no_options (options eventInstruction) in
  let id := id eventInstruction in
  let* layerId :=
    (if truthy id then ret (default "" id) else generateLayerId type) in
  match switch_type type with
  | Some method =>
      let* layer := call_LayerGenerators method layerId data options in
      let* now := Date_now in
      let* pm := get_this in
      set_this (set_layers
                  (<[layerId := mkLayerInfo layer type data options now]> (layers pm)) pm) ;;
      ret (Some layerId)
  | None => ret None
  end.

Definition removeLayer (layerId : string) : M bool :=
  let* pm := get_this in
  set_this (set_layers (delete layerId (layers pm)) pm) ;;
  ret (bool_decide (is_Some (layers pm !! layerId))).

Definition removeLayersByType (type : string) : M nat :=
  let* pm := get_this in
  let toRemove :=
    (map_to_list (filter (fun kv => li_type (snd kv) = type) (layers pm))).*1 in
  set_this (set_layers (foldr delete (layers pm) toRemove) pm) ;;
  ret (List.length toRemove).

(** [layerInfo.layer.setProps({ data: newData })].  The stored layers are
    deck.gl's [ScatterplotLayer] and [ArcLayer]; a deck.gl layer takes its
    props at construction and has no property [setProps] (the loop of
    [startAnimation] tests [typeof layer.setProps === 'function'] before it
    calls), so the call is a call of [undefined] and throws a [TypeError];
    the layer is not changed. *)
Definition call_setProps (layer : Layer) (newData : Data) : M unit :=
  throw (TypeError "layerInfo.layer.setProps is not a function").

(** [updateLayerData]: the record's [data] is assigned first, then
    [setProps] is called on the record's layer; [return true] follows the
    call. *)
Definition updateLayerData (layerId : string) (newData : Data) : M bool :=
  let* pm := get_this in
  match layers pm !! layerId with
  | Some layerInfo =>
      let layerInfo :=
        mkLayerInfo (li_layer layerInfo) (li_type layerInfo)
                    newData (li_options layerInfo) (li_createdAt layerInfo) in
      set_this (set_layers (<[layerId := layerInfo]> (layers pm)) pm) ;;
      call_setProps (li_layer layerInfo) newData ;;
      ret true
  | None => ret false
  end.

Definition updateLayerOptions (layerId : string) (newOptions : Options) : M bool :=
  let* pm := get_this in
  match layers pm !! layerId with
  | Some layerInfo =>
      let layerInfo :=
        mkLayerInfo (li_layer layerInfo) (li_type layerInfo) (li_data layerInfo)
                    (spread (li_options layerInfo) newOptions) (li_createdAt layerInfo) in
      set_this (set_layers (<[layerId := layerInfo]> (layers pm)) pm) ;;
      addLayer (mkInstruction (li_type layerInfo) (li_data layerInfo)
                              (Some (li_options layerInfo)) (Some layerId)) ;;
      ret true
  | None => ret false
  end.

Definition getLayerInfo (layerId : string) : M (option LayerInfo) :=
  let* pm := get_this in ret (layers pm !! layerId).

Definition clearAllLayers : M unit :=
  let* pm := get_this in set_this (set_layers ∅ pm).

Record BatchResult := mkResult {
  success : bool;
  layerId : option string;
  error : option string;
  instruction : EventInstruction }.

(** The body of the [for ... of] loop of [processEventBatch], with
    [results] the array built so far. *)
Definition processEventBatch_step (results : list BatchResult)
    (instruction : EventInstruction) : M (list BatchResult) :=
  try_catch
    (let* layerId := addLayer instruction in
     if truthy layerId
     then ret (results ++ [mkResult true layerId None instruction])
     else ret (results ++ [mkResult false None (Some "Failed to create layer") instruction]))
    (fun error =>
       ret (results ++ [mkResult false None (Some (message error)) instruction])).

Fixpoint processEventBatch_loop (instructions : list EventInstruction)
    (results : list BatchResult) : M (list BatchResult) :=
  match instructions with
  | [] => ret results
  | instruction :: rest =>
      let* results := processEventBatch_step results instruction in
      processEventBatch_loop rest results
  end.

Definition processEventBatch (instructions : list EventInstruction) : M (list BatchResult) :=
  processEventBatch_loop instructions [].

(** *** Sequences of calls on one manager *)

Inductive Call :=
| AddLayer (eventInstruction : EventInstruction)
| RemoveLayer (layerId : string)
| RemoveLayersByType (type : string)
| UpdateLayerData (layerId : string) (newData : Data)
| UpdateLayerOptions (layerId : string) (newOptions : Options)
| ClearAllLayers
| ProcessEventBatch (instructions : list EventInstruction)
| GenerateLayerId (type : string).

(** The world after a call; a thrown exception leaves the manager as the
    call left it. *)
Definition perform (c : Call) (w : World) : World :=
  match c with
  | AddLayer i => snd (addLayer i w)
  | RemoveLayer l => snd (removeLayer l w)
  | RemoveLayersByType t => snd (removeLayersByType t w)
  | UpdateLayerData l d => snd (updateLayerData l d w)
  | UpdateLayerOptions l o => snd (updateLayerOptions l o w)
  | ClearAllLayers => snd (clearAllLayers w)
  | ProcessEventBatch instructions => snd (processEventBatch instructions w)
  | GenerateLayerId t => snd (generateLayerId t w)
  end.

Definition run (calls : list Call) (w : World) : World :=
  fold_left (fun w c => perform c w) calls w.

End Manager.

(** ** Views of the manager used to state its properties *)

Module ManagerViews.
Import Js Manager.

(** A string without the character [-]. *)
Fixpoint no_dash (s : string) : Prop :=
  match s with
  | EmptyString => True
  | String c s' => c <> "-"%char /\ no_dash s'
  end.

(** The first step of [addLayer]: [id || this.generateLayerId(type)]. *)
Definition resolve (i : EventInstruction) (w : World) : string * World :=
  if truthy (id i) then (default "" (id i), w)
  else
    let c := N.succ (layerCounter (this w)) in
    let lid := type i +:+ "-" +:+ pretty c in
    (lid, mkWorld (set_layerCounter c (this w)) (clock w) (clockReads w)
                  (lid :: issued w)).

(** The last step of [addLayer]: [this.layers.set(layerId, {...})]. *)
Definition store (lid : string) (layer : Layer) (i : EventInstruction) (w : World) : World :=
  mkWorld
    (set_layers
       (<[lid := mkLayerInfo layer (type i) (data i)
                   (default no_options (options i)) (clock w (clockReads w))]>
          (layers (this w)))
       (this w))
    (clock w) (S (clockReads w)) (issued w).

(** The types whose generator the class defines. *)
Definition supported (t : string) : Prop := t = "pulsing_dot" \/ t = "animated_arc".

(** The entry pushed for one instruction, from the completion of its
    [addLayer] call. *)
Definition outcome_entry (i : EventInstruction) (c : Completion (option string))
  : BatchResult :=
  match c with
  | Returned lid =>
      if truthy lid then mkResult true lid None i
      else mkResult false None (Some "Failed to create layer") i
  | Thrown e => mkResult false None (Some (message e)) i
  end.

Fixpoint entries (instructions : list EventInstruction) (w : World) : list BatchResult :=
  match instructions with
  | [] => []
  | i :: rest => outcome_entry i (fst (addLayer i w)) :: entries rest (snd (addLayer i w))
  end.

Fixpoint after (instructions : list EventInstruction) (w : World) : World :=
  match instructions with
  | [] => w
  | i :: rest => after rest (snd (addLayer i w))
  end.

(** Stored keys are truthy and stored types have a generator. *)
Definition layers_ok (m : gmap string LayerInfo) : Prop :=
  forall k rec, m !! k = Some rec -> k <> "" /\ supported (li_type rec).

(** The identifiers issued so far are pairwise distinct and were made from
    counter values up to the current one. *)
Definition log_ok (c : N) (l : list string) : Prop :=
  NoDup l /\
  forall s, s ∈ l -> exists (t : string) (n : N), (n <= c)%N /\ s = t +:+ "-" +:+ pretty n.

Definition Inv (w : World) : Prop :=
  layers_ok (layers (this w)) /\ log_ok (layerCounter (this w)) (issued w).

(** The state in which [updateLayerOptions] calls [addLayer]. *)
Definition with_options (layerId : string) (rec : LayerInfo) (newOptions : Options)
    (w : World) : World :=
  mkWorld
    (set_layers
       (<[layerId := mkLayerInfo (li_layer rec) (li_type rec) (li_data rec)
                       (spread (li_options rec) newOptions) (li_createdAt rec)]>
          (layers (this w)))
       (this w))
    (clock w) (clockReads w) (issued w).

(** A sample run: one pulsing dot on a new manager. *)
Definition sample_clock (k : nat) : Z := (1000 + Z.of_nat k)%Z.

Definition sample_dot : EventInstruction :=
  mkInstruction "pulsing_dot" [mkDatum (Some 139.6917) None (Some 35.6895) None] None None.

Definition sample_record : LayerInfo :=
  mkLayerInfo (createPulsingDotLayer "pulsing_dot-1" (data sample_dot) no_options)
              "pulsing_dot" (data sample_dot) no_options 1000.

End ManagerViews.

(** ** PlotManager.js: statistics, and further views of the stored layers *)

Module ManagerQueries.
Import Js Manager.

(** One step of the loop of [getLayerStats]:
    [stats[type] = (stats[type] || 0) + 1]. *)
Definition count_type (info : LayerInfo) (stats : gmap string nat) : gmap string nat :=
  <[li_type info := S (default 0%nat (stats !! li_type info))]> stats.

(** [getLayerStats] returns an object from type to count.  The properties
    an object literal inherits (such as [constructor]) are not modelled;
    none of them is a type that [addLayer] stores. *)
Definition getLayerStats : M (gmap string nat) :=
  let* pm := get_this in
  ret (map_fold (fun _ info stats => count_type info stats) ∅ (layers pm)).

(** The stored layers of one type. *)
Definition of_type (t : string) (m : gmap string LayerInfo) : gmap string LayerInfo :=
  filter (fun kv => li_type (snd kv) = t) m.

(** A record whose layer is what its generator builds from the record's key,
    data and options. *)
Definition rendered (k : string) (rec : LayerInfo) : Prop :=
  (li_type rec = "pulsing_dot"
   /\ li_layer rec = createPulsingDotLayer k (li_data rec) (li_options rec))
  \/ (li_type rec = "animated_arc"
      /\ li_layer rec = createArcLayer k (li_data rec) (li_options rec)).

(** The same with the data [d] in the place of the record's data: the
    record's layer was built from [d]. *)
Definition rendered_from (k : string) (d : Data) (rec : LayerInfo) : Prop :=
  (li_type rec = "pulsing_dot"
   /\ li_layer rec = createPulsingDotLayer k d (li_options rec))
  \/ (li_type rec = "animated_arc"
      /\ li_layer rec = createArcLayer k d (li_options rec)).

Definition built (k : string) (rec : LayerInfo) : Prop :=
  exists d, rendered_from k d rec.

(** A property of a stored record that does not depend on the record's
    data. *)
Definition data_free (P : string -> LayerInfo -> Prop) : Prop :=
  forall k rec d,
    P k rec ->
    P k (mkLayerInfo (li_layer rec) (li_type rec) d (li_options rec) (li_createdAt rec)).

Definition is_updateLayerData (c : Call) : bool :=
  match c with
  | UpdateLayerData _ _ => true
  | _ => false
  end.

Definition sample_explosion : EventInstruction :=
  mkInstruction "explosion" [mkDatum (Some (-74.006)) None (Some 40.7128) None] None None.

End ManagerQueries.

(** ** globeUtils.js: arc geometry and the pulse animation of markers *)

Module GlobeUtilsMore.
Import GlobeUtils.

(** THREE.Curve [getPoints(divisions)]: the points [getPoint(d / divisions)]
    for [d = 0, ..., divisions]. *)
Definition getPoints (c : QuadraticBezierCurve3) (divisions : nat) : list Vector3 :=
  List.map (fun d : nat => getPoint c (INR d / INR divisions)) (seq 0 (S divisions)).

(** [createArcGeometry]: the points it hands to
    [BufferGeometry.setFromPoints] ([arcHeight] defaults to 2 and
    [divisions] to 50 in the source). *)
Definition createArcGeometry (startLatLng endLatLng : LatLng) (arcHeight : R)
    (divisions : nat) : list Vector3 :=
  let curve := createArcCurve startLatLng endLatLng arcHeight in
  getPoints curve divisions.

(** The animation record [GlobeAnimationManager.addPulsingMarker] stores;
    of the marker only the opacity of its material matters
    ([pa_material_opacity] is [None] when the marker has no material at the
    time of an update). *)
Record PulseAnimation := mkPulse {
  pa_material_opacity : option R;
  pa_speed : R;
  pa_minOpacity : R;
  pa_maxOpacity : R;
  pa_originalOpacity : R }.

(** The option keys of [addPulsingMarker]. *)
Record PulseOptions := mkPulseOptions {
  po_speed : option R; po_minOpacity : option R; po_maxOpacity : option R }.

(** [addPulsingMarker] reads [marker.material.opacity], so the marker has a
    material when it is added. *)
Definition addPulsingMarker (material_opacity : R) (options : PulseOptions)
  : PulseAnimation :=
  mkPulse (Some material_opacity)
          (default 2 (po_speed options))
          (default 0.3 (po_minOpacity options))
          (default 1.0 (po_maxOpacity options))
          material_opacity.

(** [updatePulseAnimation(animation, time)] *)
Definition updatePulseAnimation (animation : PulseAnimation) (time : R) : PulseAnimation :=
  let pulse := sin (time * pa_speed animation) * 0.5 + 0.5 in
  let opacity :=
    pa_minOpacity animation
    + (pa_maxOpacity animation - pa_minOpacity animation) * pulse in
  match pa_material_opacity animation with
  | Some _ =>
      mkPulse (Some opacity) (pa_speed animation) (pa_minOpacity animation)
              (pa_maxOpacity animation) (pa_originalOpacity animation)
  | None => animation
  end.

End GlobeUtilsMore.

(** ** geocoding.js: great-circle distance *)

Module GeocodingMore.
Import Num Geocoding.

(** The operations are those of the source, on [num]; the square root of a
    negative number is [NaN].  On the reals [a] is at most 1; rounding can
    lift it above 1 for pairs that are opposite on the globe, where the
    source then answers [NaN]. *)
Definition calculateDistance (coord1 coord2 : Coordinate) : Js.Completion num :=
  if negb (isValidCoordinate (latitude coord1) (longitude coord1))
     || negb (isValidCoordinate (latitude coord2) (longitude coord2))
  then Js.Thrown (Js.PlainError "Invalid coordinates provided")
  else
    let R := Fin 6371 in
    let dLat := fdiv (fmul (fsub (latitude coord2) (latitude coord1)) (Fin PI)) (Fin 180) in
    let dLng := fdiv (fmul (fsub (longitude coord2) (longitude coord1)) (Fin PI)) (Fin 180) in
    let a :=
      fadd (fmul (fsin (fdiv dLat (Fin 2))) (fsin (fdiv dLat (Fin 2))))
           (fmul (fmul (fmul (fcos (deg2rad (latitude coord1)))
                             (fcos (deg2rad (latitude coord2))))
                       (fsin (fdiv dLng (Fin 2))))
                 (fsin (fdiv dLng (Fin 2)))) in
    let c := fmul (Fin 2) (fatan2 (fsqrt a) (fsqrt (fsub (Fin 1) a))) in
    let distance := fmul R c in
    Js.Returned distance.

(** The value of [a] in [calculateDistance] for finite coordinates in
    degrees. *)
Definition haversine (la1 lo1 la2 lo2 : R) : R :=
  sin ((la2 + - la1) * PI / 180 / 2) * sin ((la2 + - la1) * PI / 180 / 2)
  + cos (la1 * PI / 180) * cos (la2 * PI / 180)
    * sin ((lo2 + - lo1) * PI / 180 / 2) * sin ((lo2 + - lo1) * PI / 180 / 2).




End GeocodingMore.

(** ** apiService.js: the rate limiter *)

Module RateLimiter.
Local Open Scope Z_scope.

(** Times are the integer milliseconds of [Date.now()]; the reading of the
    clock is passed to the two methods as [now]. *)
Record RateLimiter := mkRateLimiter {
  maxRequests : Z;
  windowMs : Z;
  requests : list Z }.

Definition constructor (maxRequests windowMs : option Z) : RateLimiter :=
  mkRateLimiter (default 10 maxRequests) (default 60000 windowMs) [].

Definition canMakeRequest (now : Z) (this : RateLimiter) : bool * RateLimiter :=
  let requests := List.filter (fun time => now - time <? windowMs this) (requests this) in
  if Z.of_nat (List.length requests) >=? maxRequests this
  then (false, mkRateLimiter (maxRequests this) (windowMs this) requests)
  else (true, mkRateLimiter (maxRequests this) (windowMs this) (requests ++ [now])).

(** [Math.min(...requests)] of a non-empty array *)
Definition Math_min (first : Z) (others : list Z) : Z := fold_right Z.min first others.

Definition getTimeUntilReset (now : Z) (this : RateLimiter) : Z :=
  match requests this with
  | [] => 0
  | first :: others =>
      let oldestRequest := Math_min first others in
      let timeUntilReset := windowMs this - (now - oldestRequest) in
      Z.max 0 timeUntilReset
  end.

(** A sequence of [canMakeRequest] calls at the given clock readings: the
    limiter afterwards, and the readings of the calls that were granted. *)
Fixpoint calls (times : list Z) (this : RateLimiter) : RateLimiter * list Z :=
  match times with
  | [] => (this, [])
  | now :: rest =>
      let '(ok, this') := canMakeRequest now this in
      let '(final, granted) := calls rest this' in
      (final, if ok then now :: granted else granted)
  end.

(** The test of the filter in [canMakeRequest]: the request at [time] is
    less than [window] old at [now]. *)
Definition in_window (now window : Z) (time : Z) : bool := now - time <? window.

End RateLimiter.

(** * Properties *)

(** ** [Math.atan2] *)

Module JsFacts.

Import Js.

Lemma Returned_inj {A} (a b : A) : Returned a = Returned b -> a = b.
Proof. congruence. Qed.

Lemma tan_shift_PI x : cos x <> 0 -> tan (x + PI) = tan x.
Proof.
  intros Hc. unfold tan. rewrite neg_sin, neg_cos. field. exact Hc.
Qed.

(** Settle the comparisons of a conditional from the facts at hand. *)
Ltac settle_Rdec :=
  repeat match goal with
         | |- context [Rlt_dec ?a ?b] => destruct (Rlt_dec a b); [try lra | try lra]
         | |- context [Rle_dec ?a ?b] => destruct (Rle_dec a b); [try lra | try lra]
         end.

Lemma tan_as_quotient s a : 0 < s -> cos a <> 0 -> s * sin a / (s * cos a) = tan a.
Proof. intros Hs Hc. unfold tan. field. lra. Qed.

(** [atan2] recovers the polar angle of a point, in the range (-PI, PI]. *)
Lemma atan2_polar s a :
  0 < s -> - PI < a <= PI -> atan2 (s * sin a) (s * cos a) = a.
Proof.
  intros Hs [Hlo Hhi]. pose proof PI_RGT_0 as Hpi. unfold atan2.
  destruct (Rtotal_order a (- (PI / 2))) as [Hlt | [Heq | Hgt]].
  - (* third quadrant *)
    assert (Hc : cos a < 0).
    { rewrite <- cos_neg. apply cos_lt_0; lra. }
    assert (Hsn : sin a < 0).
    { rewrite <- (Ropp_involutive a), sin_neg.
      assert (0 < sin (- a)) by (apply sin_gt_0; lra). lra. }
    assert (Hx : s * cos a < 0) by nra.
    assert (Hy : s * sin a < 0) by nra.
    settle_Rdec. rewrite tan_as_quotient by lra.
    rewrite <- (tan_shift_PI a) by lra.
    rewrite atan_tan; lra.
  - (* on the negative vertical axis *)
    subst a. rewrite cos_neg, sin_neg, cos_PI2, sin_PI2. settle_Rdec.
  - destruct (Rtotal_order a (PI / 2)) as [Hlt | [Heq | Hgt2]].
    + (* right half plane *)
      assert (Hc : 0 < cos a) by (apply cos_gt_0; lra).
      assert (Hx : 0 < s * cos a) by nra.
      settle_Rdec. rewrite tan_as_quotient by lra.
      apply atan_tan; lra.
    + (* on the positive vertical axis *)
      subst a. rewrite cos_PI2, sin_PI2. settle_Rdec.
    + (* second quadrant *)
      assert (Hc : cos a < 0) by (apply cos_lt_0; lra).
      assert (Hsn : 0 <= sin a) by (apply sin_ge_0; lra).
      assert (Hx : s * cos a < 0) by nra.
      assert (Hy : 0 <= s * sin a) by nra.
      assert (Hc' : cos (a - PI) <> 0).
      { replace (a - PI) with (- (PI - a)) by ring. rewrite cos_neg.
        replace (PI - a) with (- a + PI) by ring. rewrite neg_cos, cos_neg. lra. }
      settle_Rdec. rewrite tan_as_quotient by lra.
      replace a with (a - PI + PI) at 1 by ring.
      rewrite tan_shift_PI by exact Hc'.
      rewrite atan_tan; lra.
Qed.

End JsFacts.

(** ** Projection and its inverse *)

Module GlobeUtilsFacts.

Import GlobeUtils.

Lemma length_latLngToVector3 la lo r :
  0 <= r -> length (latLngToVector3 la lo r) = r.
Proof.
  intros Hr. unfold length, latLngToVector3. cbn [vx vy vz].
  set (p := (90 - la) * (PI / 180)). set (q := (lo + 180) * (PI / 180)).
  replace (_ + _ + _) with
    (r * r * ((sin p)² * ((sin q)² + (cos q)²) + (cos p)²)) by (unfold Rsqr; ring).
  rewrite sin2_cos2, Rmult_1_r, sin2_cos2, Rmult_1_r.
  now apply sqrt_square.
Qed.

Lemma rescale_normalize v r :
  0 < r -> length v = r -> multiplyScalar r (normalize v) = v.
Proof.
  intros Hr Hl. unfold normalize. rewrite Hl.
  destruct (Req_dec_T r 0) as [E | _]; [lra |].
  destruct v as [x y z]. unfold divideScalar, multiplyScalar. cbn [vx vy vz].
  f_equal; field; lra.
Qed.

Lemma vector3ToLatLng_latLngToVector3_lat la lo r :
  0 < r -> -90 <= la <= 90 ->
  lat (vector3ToLatLng (latLngToVector3 la lo r) r) = la.
Proof.
  intros Hr Hla. pose proof PI_RGT_0 as Hpi. unfold vector3ToLatLng.
  rewrite rescale_normalize by (try apply length_latLngToVector3; lra).
  cbn [lat vy latLngToVector3].
  replace (r * cos ((90 - la) * (PI / 180)) / r)
    with (cos ((90 - la) * (PI / 180))) by (field; lra).
  rewrite acos_cos.
  - field; lra.
  - split; [nra |].
    replace PI with (180 * (PI / 180)) at 2 by (field; lra). nra.
Qed.

Lemma sin_colatitude_pos la :
  -90 < la < 90 -> 0 < sin ((90 - la) * (PI / 180)).
Proof.
  intros Hla. pose proof PI_RGT_0 as Hpi. apply sin_gt_0; [nra |].
  replace PI with (180 * (PI / 180)) at 2 by (field; lra). nra.
Qed.

(** Western hemisphere: the longitude is recovered. *)
Lemma vector3ToLatLng_latLngToVector3_lng_west la lo r :
  0 < r -> -90 < la < 90 -> -180 < lo <= 0 ->
  lng (vector3ToLatLng (latLngToVector3 la lo r) r) = lo.
Proof.
  intros Hr Hla Hlo. pose proof PI_RGT_0 as Hpi.
  pose proof (sin_colatitude_pos la Hla) as Hs. unfold vector3ToLatLng.
  rewrite rescale_normalize by (try apply length_latLngToVector3; lra).
  cbn [lng vx vz latLngToVector3]. rewrite Ropp_involutive.
  rewrite JsFacts.atan2_polar.
  - field; lra.
  - nra.
  - split; [nra |].
    replace PI with (180 * (PI / 180)) at 2 by (field; lra). nra.
Qed.

(** Eastern hemisphere: [Math.atan2] answers in (-PI, PI], so the angle
    [theta] in (PI, 2 PI] comes back lowered by a full turn. *)
Lemma vector3ToLatLng_latLngToVector3_lng_east la lo r :
  0 < r -> -90 < la < 90 -> 0 < lo <= 180 ->
  lng (vector3ToLatLng (latLngToVector3 la lo r) r) = lo - 360.
Proof.
  intros Hr Hla Hlo. pose proof PI_RGT_0 as Hpi.
  pose proof (sin_colatitude_pos la Hla) as Hs. unfold vector3ToLatLng.
  rewrite rescale_normalize by (try apply length_latLngToVector3; lra).
  cbn [lng vx vz latLngToVector3]. rewrite Ropp_involutive.
  set (th := (lo + 180) * (PI / 180)).
  assert (Hsin : sin th = sin (th - 2 * PI)).
  { rewrite <- (sin_period (th - 2 * PI) 1). f_equal. simpl INR. ring. }
  assert (Hcos : cos th = cos (th - 2 * PI)).
  { rewrite <- (cos_period (th - 2 * PI) 1). f_equal. simpl INR. ring. }
  rewrite Hsin, Hcos, JsFacts.atan2_polar.
  - unfold th. field; lra.
  - nra.
  - unfold th. split.
    + replace PI with (180 * (PI / 180)) at 1 3 by (field; lra). nra.
    + replace PI with (180 * (PI / 180)) at 2 3 by (field; lra). nra.
Qed.

(** C1 (evaluation at the failing input).  Projecting the point
    (lat 0, lng 90) onto the sphere of radius 5 and converting back yields
    longitude -270: the latitude is recovered, the longitude is off by a
    full turn of 360 degrees, far outside any rounding tolerance. *)
Theorem vector3ToLatLng_round_trip_east_fails :
  vector3ToLatLng (latLngToVector3 0 90 5) 5 = latlng 0 (-270)
  /\ Rabs (lng (vector3ToLatLng (latLngToVector3 0 90 5) 5) - 90) = 360.
Proof.
  assert (Hlat : lat (vector3ToLatLng (latLngToVector3 0 90 5) 5) = 0)
    by (apply vector3ToLatLng_latLngToVector3_lat; lra).
  assert (Hlng : lng (vector3ToLatLng (latLngToVector3 0 90 5) 5) = 90 - 360)
    by (apply vector3ToLatLng_latLngToVector3_lng_east; lra).
  split.
  - destruct (vector3ToLatLng _ _) as [la lo]. cbn [lat lng] in *.
    subst. f_equal. lra.
  - rewrite Hlng. unfold Rabs. destruct (Rcase_abs _); lra.
Qed.

Lemma half_sum_self v : multiplyScalar 0.5 (add v v) = v.
Proof.
  destruct v as [x y z]. unfold multiplyScalar, add. cbn [vx vy vz].
  f_equal; lra.
Qed.

Lemma getPoint_same_endpoints a h t :
  getPoint (createArcCurve a a h) t =
  multiplyScalar (1 + 2 * t * (1 - t) * h / 5)
                 (latLngToVector3 (lat a) (lng a) GLOBE_radius).
Proof.
  unfold createArcCurve. rewrite half_sum_self.
  set (P := latLngToVector3 (lat a) (lng a) GLOBE_radius).
  assert (HP : length P = 5)
    by (unfold P, GLOBE_radius; apply length_latLngToVector3; lra).
  unfold normalize. rewrite HP.
  destruct (Req_dec_T 5 0) as [E | _]; [lra |].
  destruct P as [x y z].
  unfold getPoint, divideScalar, multiplyScalar, QuadraticBezier,
    QuadraticBezierP0, QuadraticBezierP1, QuadraticBezierP2, GLOBE_radius.
  cbn [vx vy vz v0 v1 v2]. f_equal; field.
Qed.

(** C8 (as amended).  With both endpoints at [a], the curve built by
    [createArcCurve] starts and ends at the projection [P] of [a], and its
    sample at parameter [t] is [P] scaled by [1 + 2 t (1 - t) h / 5]: a
    radial segment through [P], which is the single point [P] when the arc
    height [h] is zero. *)
Theorem createArcCurve_same_endpoints a h t :
  let P := latLngToVector3 (lat a) (lng a) GLOBE_radius in
  getPoint (createArcCurve a a h) 0 = P
  /\ getPoint (createArcCurve a a h) 1 = P
  /\ getPoint (createArcCurve a a h) t =
     multiplyScalar (1 + 2 * t * (1 - t) * h / 5) P
  /\ getPoint (createArcCurve a a 0) t = P.
Proof.
  intros P. rewrite !getPoint_same_endpoints. fold P.
  destruct P as [x y z]. unfold multiplyScalar. cbn [vx vy vz].
  repeat split; try reflexivity; f_equal; field.
Qed.

Lemma latLngToVector3_origin : latLngToVector3 0 0 GLOBE_radius = vec3 5 0 0.
Proof.
  unfold latLngToVector3, GLOBE_radius.
  replace ((90 - 0) * (PI / 180)) with (PI / 2) by field.
  replace ((0 + 180) * (PI / 180)) with PI by field.
  rewrite sin_PI2, cos_PI2, sin_PI, cos_PI. f_equal; ring.
Qed.

(** C8 (counterexample).  For a = (0, 0) and the default arc height 2 the
    sample at t = 1/2 is (6, 0, 0), not the projection (5, 0, 0) of a. *)
Lemma createArcCurve_degenerate_not_a_point :
  ~ (forall t, 0 <= t <= 1 ->
       getPoint (createArcCurve (latlng 0 0) (latlng 0 0) 2) t =
       latLngToVector3 0 0 GLOBE_radius).
Proof.
  intros H. specialize (H (1 / 2)).
  assert (Ht : 0 <= 1 / 2 <= 1) by lra. specialize (H Ht).
  rewrite getPoint_same_endpoints in H. cbn [lat lng] in H.
  rewrite latLngToVector3_origin in H.
  unfold multiplyScalar in H. cbn [vx vy vz] in H.
  injection H as Hx _ _. lra.
Qed.

End GlobeUtilsFacts.

(** ** Animation formulas *)

Module AnimationFacts.

Import Animation.

Lemma rem_below t d : 0 <= t < d -> Js.rem t d = t.
Proof.
  intros [H0 Hd]. unfold Js.rem, Js.trunc.
  assert (Hq : 0 <= t / d < 1).
  { split.
    - apply Rmult_le_pos; [lra |]. left. apply Rinv_0_lt_compat. lra.
    - apply (Rmult_lt_reg_r d); [lra |]. field_simplify; lra. }
  destruct (Rle_dec 0 (t / d)) as [_ | N]; [| lra].
  rewrite (Zfloor_eq 0); [lra |]. simpl IZR. lra.
Qed.

Lemma rem_self d : 0 < d -> Js.rem d d = 0.
Proof.
  intros Hd. unfold Js.rem, Js.trunc.
  replace (d / d) with 1 by (field; lra).
  destruct (Rle_dec 0 1) as [_ | N]; [| lra].
  rewrite (Zfloor_eq 1); [lra |]. simpl IZR. lra.
Qed.

Lemma rem_zero d : 0 < d -> Js.rem 0 d = 0.
Proof. intros Hd. apply rem_below. lra. Qed.

Lemma cube_le x y : 0 <= x <= y -> x ^ 3 <= y ^ 3.
Proof. intros [H0 Hxy]. apply pow_incr. lra. Qed.

(** C6 (as amended).  The opacity returned by the closure of
    [createGlowAnimation] at clock time [t] is
    [min (1, baseOpacity + glowIntensity * sin (t * 0.001 * glowSpeed) + glowIntensity)],
    with [glowIntensity] defaulting to 0.5 and [glowSpeed] to 1.5: the
    phase factor is 0.001. *)
Theorem createGlowAnimation_formula baseOpacity glowIntensity glowSpeed t :
  let gi := default 0.5 glowIntensity in
  let gs := default 1.5 glowSpeed in
  createGlowAnimation baseOpacity glowIntensity glowSpeed t =
  Rmin 1 (baseOpacity + gi * sin (t * 0.001 * gs) + gi).
Proof.
  intros gi gs. unfold createGlowAnimation. fold gi gs.
  f_equal. ring.
Qed.

(** C6 (counterexample).  With baseOpacity 0, the default intensity and
    speed, and t = 2000 PI / 3, the code answers 0.5 while the formula with
    phase factor 0.0015 gives 0. *)
Lemma createGlowAnimation_not_spec_formula :
  createGlowAnimation 0 None None (2000 * PI / 3)
  <> spec_glow_opacity 0 0.5 1.5 (2000 * PI / 3).
Proof.
  unfold createGlowAnimation, spec_glow_opacity. cbv [from_option Datatypes.id].
  replace (2000 * PI / 3 * 0.001 * 1.5) with PI by lra.
  replace (2000 * PI / 3 * 0.0015 * 1.5) with (3 * (PI / 2)) by lra.
  rewrite sin_PI, sin_3PI2.
  replace (0 + (0 * 0.5 + 0.5)) with 0.5 by lra.
  replace (0 + 0.5 * -1 + 0.5) with 0 by lra.
  rewrite Rmin_right by lra. rewrite Rmin_right by lra. lra.
Qed.

(** C7.  For baseRadius <= maxRadius and duration > 0 the explosion radius
    restarts at the end of a period, [radius duration = radius 0], and is
    non-decreasing on [0, duration). *)
Theorem createExplosionAnimation_periodic_monotone baseRadius maxRadius duration :
  baseRadius <= maxRadius -> 0 < duration ->
  let radius := createExplosionAnimation baseRadius maxRadius (Some duration) in
  radius duration = radius 0
  /\ forall t1 t2, 0 <= t1 -> t1 <= t2 -> t2 < duration -> radius t1 <= radius t2.
Proof.
  intros Hr Hd radius. unfold radius, createExplosionAnimation.
  cbv [from_option Datatypes.id].
  split.
  - rewrite rem_self, rem_zero by assumption. reflexivity.
  - intros t1 t2 H0 H12 H2.
    rewrite (rem_below t1), (rem_below t2) by lra.
    assert (Hinv : 0 < / duration) by (apply Rinv_0_lt_compat; lra).
    assert (Hp1 : t1 / duration <= t2 / duration).
    { unfold Rdiv. apply Rmult_le_compat_r; lra. }
    assert (Hp2 : t2 / duration < 1).
    { apply (Rmult_lt_reg_r duration); [lra |]. field_simplify; lra. }
    assert (Hc : (1 - t2 / duration) ^ 3 <= (1 - t1 / duration) ^ 3)
      by (apply cube_le; lra).
    apply Rplus_le_compat_l. apply Rmult_le_compat_l; lra.
Qed.

(** C7 (witness).  The documented defaults: base radius 10000, maximal
    radius 50000 and a period of 2000 ms. *)
Lemma createExplosionAnimation_periodic_monotone_witness :
  let radius := createExplosionAnimation 10000 50000 (Some 2000) in
  radius 2000 = radius 0
  /\ forall t1 t2, 0 <= t1 -> t1 <= t2 -> t2 < 2000 -> radius t1 <= radius t2.
Proof.
  apply (createExplosionAnimation_periodic_monotone 10000 50000 2000); lra.
Defined.

End AnimationFacts.

(** ** Great-circle interpolation *)

Module GeocodingFacts.

Import Num Geocoding.

Lemma fdiv_Fin x y : y <> 0 -> fdiv (Fin x) (Fin y) = Fin (x / y).
Proof. intros Hy. unfold fdiv. destruct (Req_dec_T y 0); [contradiction | reflexivity]. Qed.

Lemma fdiv_zero_zero : fdiv (Fin 0) (Fin 0) = NaN.
Proof.
  unfold fdiv. destruct (Req_dec_T 0 0) as [_ | N]; [reflexivity | contradiction].
Qed.

Lemma deg2rad_Fin a : deg2rad (Fin a) = Fin (a * PI / 180).
Proof. unfold deg2rad. cbn [fmul]. apply fdiv_Fin. lra. Qed.

Lemma fle_Fin_inv lo x hi :
  fle (Fin lo) x = true -> fle x (Fin hi) = true -> exists r, x = Fin r /\ lo <= r <= hi.
Proof.
  destruct x as [r | | |]; cbn; try discriminate.
  destruct (Rle_dec lo r), (Rle_dec r hi); try discriminate. eauto.
Qed.

Lemma isValidCoordinate_inv la lo :
  isValidCoordinate la lo = true ->
  exists x y, la = Fin x /\ lo = Fin y /\ -90 <= x <= 90 /\ -180 <= y <= 180.
Proof.
  unfold isValidCoordinate. rewrite !andb_true_iff. intros [[[H1 H2] H3] H4].
  destruct (fle_Fin_inv _ _ _ H1 H2) as (x & -> & Hx).
  destruct (fle_Fin_inv _ _ _ H3 H4) as (y & -> & Hy). eauto 6.
Qed.

(** The angular distance of a point to itself is exactly zero. *)
Lemma distance_to_self u v :
  fmul (Fin 2) (fasin (fsqrt (
    fadd (fsquare (fsin (fdiv (fsub (Fin u) (Fin u)) (Fin 2))))
         (fmul (fmul (fcos (Fin u)) (fcos (Fin u)))
               (fsquare (fsin (fdiv (fsub (Fin v) (Fin v)) (Fin 2)))))))) = Fin 0.
Proof.
  cbn [fsub fneg fadd]. rewrite !fdiv_Fin by lra.
  cbn [fsin fcos lift fsquare fmul fadd].
  replace ((u + - u) / 2) with 0 by lra.
  replace ((v + - v) / 2) with 0 by lra.
  rewrite sin_0.
  replace (0 * 0 + cos u * cos u * (0 * 0)) with 0 by ring.
  cbn [fsqrt]. destruct (Rle_dec 0 0) as [_ | N]; [| lra].
  rewrite sqrt_0. cbn [fasin].
  destruct (Rle_dec (Rabs 0) 1) as [_ | N]; [| rewrite Rabs_R0 in N; lra].
  rewrite asin_0. cbn [fmul]. f_equal. ring.
Qed.

Lemma weight_degenerate f : fdiv (fsin (fmul f (Fin 0))) (fsin (Fin 0)) = NaN.
Proof.
  cbn [fsin lift]. rewrite sin_0.
  destruct f as [x | | |]; cbn [fmul fsin lift]; try reflexivity.
  - rewrite Rmult_0_r, sin_0. apply fdiv_zero_zero.
  - unfold inf_times. destruct (Req_dec_T 0 0); [reflexivity | contradiction].
  - unfold inf_times. destruct (Req_dec_T 0 0); [reflexivity | contradiction].
Qed.

(** Identical valid endpoints: every returned coordinate is [NaN]. *)
Lemma getIntermediatePoints_same_point start numPoints :
  isValidCoordinate (latitude start) (longitude start) = true ->
  getIntermediatePoints start start numPoints =
  Js.Returned (List.map (fun _ => coord NaN NaN) (seq 0 (S numPoints))).
Proof.
  intros Hv. unfold getIntermediatePoints. rewrite Hv. cbn [negb orb].
  destruct (isValidCoordinate_inv _ _ Hv) as (x & y & -> & -> & _ & _).
  rewrite !deg2rad_Fin, distance_to_self.
  f_equal. apply List.map_ext. intros i.
  rewrite !weight_degenerate. reflexivity.
Qed.

Lemma getIntermediatePoints_count start end_ numPoints pts :
  getIntermediatePoints start end_ numPoints = Js.Returned pts ->
  List.length pts = S numPoints.
Proof.
  unfold getIntermediatePoints. destruct (_ || _); [discriminate |].
  intros H. apply JsFacts.Returned_inj in H. rewrite <- H.
  now rewrite List.length_map, List.length_seq.
Qed.

(** C4 (evaluation at the failing input).  For start = end = (0, 0) and
    numPoints = 2 the call returns three points, and each of them has
    latitude [NaN] and longitude [NaN]: both weights are computed as
    [sin 0 / sin 0]. *)
Theorem getIntermediatePoints_degenerate_is_NaN :
  getIntermediatePoints (coord (Fin 0) (Fin 0)) (coord (Fin 0) (Fin 0)) 2 =
  Js.Returned [coord NaN NaN; coord NaN NaN; coord NaN NaN].
Proof.
  rewrite getIntermediatePoints_same_point; [reflexivity |].
  unfold isValidCoordinate. cbn [latitude longitude fle].
  repeat (destruct (Rle_dec _ _) as [_ | N]; [| exfalso; lra]).
  reflexivity.
Qed.

End GeocodingFacts.

(** ** Layer identifiers *)

Module IdFacts.
Import ManagerViews.

Lemma pretty_N_char_no_dash x : pretty_N_char x <> "-"%char.
Proof. unfold pretty_N_char. repeat case_match; discriminate. Qed.

Lemma pretty_N_go_no_dash x s : no_dash s -> no_dash (pretty_N_go x s).
Proof.
  revert s. induction (N.lt_wf_0 x) as [x _ IH]. intros s Hs.
  destruct (decide (x = 0%N)) as [-> | Hx].
  - now rewrite pretty_N_go_0.
  - rewrite pretty_N_go_step by lia. apply IH.
    + apply N.div_lt; lia.
    + split; [apply pretty_N_char_no_dash | exact Hs].
Qed.

Lemma pretty_N_no_dash (n : N) : no_dash (pretty n).
Proof.
  unfold pretty, pretty_N. case_decide.
  - cbn. split; [discriminate | exact I].
  - apply pretty_N_go_no_dash. exact I.
Qed.

Lemma no_dash_app_dash a s : ~ no_dash (a +:+ String "-" s).
Proof.
  induction a as [| c a IH]; cbn.
  - intros [H _]. now apply H.
  - intros [_ H]. now apply IH.
Qed.

(** Two strings that end in a dash followed by dash-free text and are
    equal have the same text after the dash. *)
Lemma after_last_dash a b s1 s2 :
  no_dash s1 -> no_dash s2 ->
  a +:+ String "-" s1 = b +:+ String "-" s2 -> s1 = s2.
Proof.
  revert b. induction a as [| c a IH]; intros [| c' b] H1 H2; cbn; intros E.
  - now injection E.
  - injection E as _ E. subst s1. now apply no_dash_app_dash in H1.
  - injection E as _ E. subst s2. now apply no_dash_app_dash in H2.
  - injection E as _ E. now apply (IH b).
Qed.

(** The identifier determines the counter value it was made from. *)
Lemma layerId_counter_inj (t1 t2 : string) (n1 n2 : N) :
  t1 +:+ "-" +:+ pretty n1 = t2 +:+ "-" +:+ pretty n2 -> n1 = n2.
Proof.
  intros E. apply (inj pretty).
  apply (after_last_dash t1 t2); auto using pretty_N_no_dash.
Qed.

Lemma layerId_nonempty (t : string) (n : N) : t +:+ "-" +:+ pretty n <> "".
Proof. destruct t; discriminate. Qed.

End IdFacts.

(** ** [addLayer] *)

Module AddLayerFacts.

Import Js Manager ManagerViews.

Lemma addLayer_unfold i w :
  addLayer i w =
  match switch_type (type i) with
  | None => (Returned None, snd (resolve i w))
  | Some method =>
      match LayerGenerators method with
      | None =>
          (Thrown (TypeError ("LayerGenerators." +:+ method +:+ " is not a function")),
           snd (resolve i w))
      | Some f =>
          let lid := fst (resolve i w) in
          (Returned (Some lid),
           store lid (f lid (data i) (default no_options (options i))) i
                 (snd (resolve i w)))
      end
  end.
Proof.
  unfold addLayer, resolve, store, call_LayerGenerators, bind.
  destruct (truthy (id i)); cbn;
    destruct (switch_type (type i)) as [m |]; cbn; try reflexivity;
    destruct (LayerGenerators m); reflexivity.
Qed.

Lemma truthy_Some s : truthy s = true -> exists x, s = Some x /\ x <> "".
Proof.
  destruct s as [x |]; cbn; [| discriminate].
  intros H. exists x. split; [reflexivity |].
  intros ->. discriminate.
Qed.

Lemma resolve_nonempty i w : fst (resolve i w) <> "".
Proof.
  unfold resolve. destruct (truthy (id i)) eqn:E; cbn.
  - apply truthy_Some in E as (x & -> & Hx). exact Hx.
  - apply IdFacts.layerId_nonempty.
Qed.

Lemma resolve_truthy i w : truthy (Some (fst (resolve i w))) = true.
Proof.
  pose proof (resolve_nonempty i w) as H. cbn.
  destruct (String.eqb_spec (fst (resolve i w)) ""); [contradiction | reflexivity].
Qed.

Lemma resolve_layers i w : layers (this (snd (resolve i w))) = layers (this w).
Proof. unfold resolve. now destruct (truthy (id i)). Qed.

Lemma resolve_clock i w :
  clock (snd (resolve i w)) = clock w /\ clockReads (snd (resolve i w)) = clockReads w.
Proof. unfold resolve. now destruct (truthy (id i)). Qed.

Lemma resolve_given i w x :
  id i = Some x -> x <> "" -> resolve i w = (x, w).
Proof.
  intros E Hx. unfold resolve. rewrite E. cbn.
  destruct (String.eqb_spec x ""); [contradiction | reflexivity].
Qed.

Lemma switch_type_supported t :
  supported t -> exists m f, switch_type t = Some m /\ LayerGenerators m = Some f.
Proof. intros [-> | ->]; cbn; eauto. Qed.

Lemma supported_of_generator t m f :
  switch_type t = Some m -> LayerGenerators m = Some f -> supported t.
Proof.
  unfold switch_type, supported.
  repeat match goal with
         | |- context [String.eqb t ?s] => destruct (String.eqb_spec t s) as [-> | _]
         end;
    intros E1 E2; try discriminate;
    injection E1 as <-; cbn in E2; try discriminate; auto.
Qed.

(** [addLayer] never removes a layer, whatever its outcome. *)
Lemma addLayer_keeps i w k :
  is_Some (layers (this w) !! k) ->
  is_Some (layers (this (snd (addLayer i w))) !! k).
Proof.
  intros Hk. rewrite addLayer_unfold.
  destruct (switch_type (type i)) as [m |]; cbn; [| now rewrite resolve_layers].
  destruct (LayerGenerators m); cbn; [| now rewrite resolve_layers].
  rewrite resolve_layers. destruct (decide (fst (resolve i w) = k)) as [-> | Hne].
  - rewrite lookup_insert_eq. eauto.
  - now rewrite lookup_insert_ne.
Qed.

(** A returned identifier is stored. *)
Lemma addLayer_stored i w lid :
  fst (addLayer i w) = Returned (Some lid) ->
  is_Some (layers (this (snd (addLayer i w))) !! lid).
Proof.
  rewrite addLayer_unfold.
  destruct (switch_type (type i)) as [m |]; cbn; [| discriminate].
  destruct (LayerGenerators m); cbn; [| discriminate].
  intros [= <-]. rewrite lookup_insert_eq. eauto.
Qed.

Lemma addLayer_returns_truthy i w r :
  fst (addLayer i w) = Returned r -> r = None \/ truthy r = true.
Proof.
  rewrite addLayer_unfold.
  destruct (switch_type (type i)) as [m |]; cbn; [| intros [= <-]; auto].
  destruct (LayerGenerators m); cbn; [| discriminate].
  intros [= <-]. right. apply resolve_truthy.
Qed.

(** C2 (evaluation at the failing input).  For an [explosion] instruction,
    whatever its data, options and id and whatever the state of the
    manager, [addLayer] does not return: it throws the [TypeError] raised
    by calling [LayerGenerators.createExplosionLayer], which the class
    does not define. *)
Theorem addLayer_explosion_throws w data options id :
  fst (addLayer (mkInstruction "explosion" data options id) w) =
  Thrown (TypeError "LayerGenerators.createExplosionLayer is not a function").
Proof. rewrite addLayer_unfold. reflexivity. Qed.

(** The same happens for the four other types that the [switch] names
    without a generator. *)
Lemma addLayer_throws_without_generator w data options id :
  Forall (fun t => exists e, fst (addLayer (mkInstruction t data options id) w) = Thrown e)
         ["explosion"; "glowing_border"; "directional_arrow"; "event_marker";
          "area_highlight"].
Proof. repeat constructor; rewrite addLayer_unfold; cbn; eauto. Qed.

(** What [addLayer] does get right: an unknown type is reported by the
    return value [null], and the two types with a generator are created. *)
Lemma addLayer_unknown_type i w :
  switch_type (type i) = None -> fst (addLayer i w) = Returned None.
Proof. intros E. rewrite addLayer_unfold, E. reflexivity. Qed.

Lemma addLayer_supported i w :
  supported (type i) -> fst (addLayer i w) = Returned (Some (fst (resolve i w))).
Proof.
  intros H. destruct (switch_type_supported _ H) as (m & f & E1 & E2).
  rewrite addLayer_unfold, E1, E2. reflexivity.
Qed.

End AddLayerFacts.

(** ** [processEventBatch] *)

Module BatchFacts.

Import Js Manager ManagerViews AddLayerFacts.

Lemma processEventBatch_step_eq acc i w :
  processEventBatch_step acc i w =
  (Returned (acc ++ [outcome_entry i (fst (addLayer i w))]), snd (addLayer i w)).
Proof.
  unfold processEventBatch_step, try_catch, bind.
  destruct (addLayer i w) as [[lid | e] w']; cbn; [destruct (truthy lid) |]; reflexivity.
Qed.

Lemma processEventBatch_loop_eq instructions acc w :
  processEventBatch_loop instructions acc w =
  (Returned (acc ++ entries instructions w), after instructions w).
Proof.
  revert acc w. induction instructions as [| i rest IH]; intros acc w; cbn.
  - now rewrite app_nil_r.
  - unfold bind. rewrite processEventBatch_step_eq, IH.
    now rewrite <- app_assoc.
Qed.

Lemma processEventBatch_eq instructions w :
  processEventBatch instructions w = (Returned (entries instructions w), after instructions w).
Proof. unfold processEventBatch. now rewrite processEventBatch_loop_eq. Qed.

Lemma length_entries instructions w :
  List.length (entries instructions w) = List.length instructions.
Proof. revert w. induction instructions; intros w; cbn; auto. Qed.

Lemma instruction_outcome_entry i c : instruction (outcome_entry i c) = i.
Proof. destruct c as [lid | e]; cbn; [destruct (truthy lid) |]; reflexivity. Qed.

Lemma instruction_entries instructions w :
  List.map instruction (entries instructions w) = instructions.
Proof.
  revert w. induction instructions as [| i rest IH]; intros w; cbn; [reflexivity |].
  now rewrite instruction_outcome_entry, IH.
Qed.

Lemma entries_lookup instructions w k i :
  instructions !! k = Some i ->
  entries instructions w !! k =
  Some (outcome_entry i (fst (addLayer i (after (take k instructions) w)))).
Proof.
  revert w k. induction instructions as [| j rest IH]; intros w [| k]; cbn; try discriminate.
  - now intros [= ->].
  - apply IH.
Qed.

Lemma after_take_S instructions w k i :
  instructions !! k = Some i ->
  after (take (S k) instructions) w = snd (addLayer i (after (take k instructions) w)).
Proof.
  revert w k. induction instructions as [| j rest IH]; intros w [| k]; cbn; try discriminate.
  - now intros [= ->].
  - apply IH.
Qed.

Lemma after_keeps instructions w id :
  is_Some (layers (this w) !! id) -> is_Some (layers (this (after instructions w)) !! id).
Proof.
  revert w. induction instructions as [| i rest IH]; intros w H; cbn; [exact H |].
  apply IH. now apply addLayer_keeps.
Qed.

Lemma after_take_keeps instructions w k id :
  is_Some (layers (this (after (take k instructions) w)) !! id) ->
  is_Some (layers (this (after instructions w)) !! id).
Proof.
  revert w k. induction instructions as [| i rest IH]; intros w [| k]; cbn.
  - auto.
  - auto.
  - intros H. apply after_keeps. now apply addLayer_keeps.
  - apply IH.
Qed.

Lemma success_outcome_entry i w :
  success (outcome_entry i (fst (addLayer i w))) = true <->
  exists lid, fst (addLayer i w) = Returned (Some lid).
Proof.
  destruct (fst (addLayer i w)) as [r | e] eqn:E; cbn.
  - destruct (addLayer_returns_truthy _ _ _ E) as [-> | Ht].
    + cbn. split; [discriminate | intros [? [=]]].
    + rewrite Ht. cbn. apply truthy_Some in Ht as (x & -> & _).
      split; eauto.
  - split; [discriminate | intros [? [=]]].
Qed.

Lemma layerId_outcome_entry i w lid :
  fst (addLayer i w) = Returned (Some lid) ->
  layerId (outcome_entry i (fst (addLayer i w))) = Some lid.
Proof.
  intros E. rewrite E. cbn [outcome_entry].
  destruct (addLayer_returns_truthy _ _ _ E) as [[=] | H]. now rewrite H.
Qed.

(** C3.  [processEventBatch] returns (it does not throw) an array with one
    entry per instruction, in input order.  Entry [k] is made from the
    completion of [addLayer] on instruction [k] alone, run in the state
    left by the instructions before it; it has [success: true] exactly
    when that call returned an id, and then it carries that id and the
    layer is stored when the batch ends.  Whatever the outcome, the next
    instruction is processed from the state this call left, and every
    layer present after a prefix of the batch is still present at the
    end. *)
Theorem processEventBatch_per_item instructions w :
  exists results,
    fst (processEventBatch instructions w) = Returned results
    /\ List.length results = List.length instructions
    /\ List.map instruction results = instructions
    /\ (forall k i,
          instructions !! k = Some i ->
          let before := snd (processEventBatch (take k instructions) w) in
          exists r,
            results !! k = Some r
            /\ r = outcome_entry i (fst (addLayer i before))
            /\ (success r = true <-> exists lid, fst (addLayer i before) = Returned (Some lid))
            /\ (forall lid,
                  fst (addLayer i before) = Returned (Some lid) ->
                  layerId r = Some lid
                  /\ is_Some (layers (this (snd (processEventBatch instructions w))) !! lid))
            /\ snd (processEventBatch (take (S k) instructions) w) = snd (addLayer i before))
    /\ (forall k id,
          is_Some (layers (this (snd (processEventBatch (take k instructions) w))) !! id) ->
          is_Some (layers (this (snd (processEventBatch instructions w))) !! id)).
Proof.
  exists (entries instructions w). rewrite processEventBatch_eq. cbn [fst snd].
  split; [reflexivity |].
  split; [apply length_entries |].
  split; [apply instruction_entries |].
  split.
  - intros k i Hk. rewrite !processEventBatch_eq. cbn [fst snd].
    eexists. split; [apply (entries_lookup _ _ _ _ Hk) |].
    split; [reflexivity |].
    split; [apply success_outcome_entry |].
    split; [| now apply after_take_S].
    intros lid Hlid. split.
    + now apply layerId_outcome_entry.
    + apply (after_take_keeps _ _ (S k)).
      rewrite (after_take_S _ _ _ _ Hk). now apply addLayer_stored.
  - intros k id. rewrite processEventBatch_eq. cbn [snd]. apply after_take_keeps.
Qed.

End BatchFacts.

(** ** Invariants of a manager over sequences of calls *)

Module Invariants.

Import Js Manager ManagerViews AddLayerFacts BatchFacts.

Lemma boot_Inv clock : Inv (boot clock).
Proof.
  split.
  - intros k rec H. cbn in H. now rewrite lookup_empty in H.
  - split; [constructor |]. intros s H. cbn in H. now apply elem_of_nil in H.
Qed.

Lemma layers_ok_insert m k rec :
  layers_ok m -> k <> "" -> supported (li_type rec) -> layers_ok (<[k := rec]> m).
Proof.
  intros Hm Hk Ht k' rec'. destruct (decide (k = k')) as [<- | Hne].
  - rewrite lookup_insert_eq. now intros [= <-].
  - rewrite lookup_insert_ne by exact Hne. apply Hm.
Qed.

Lemma layers_ok_delete m k : layers_ok m -> layers_ok (delete k m).
Proof.
  intros Hm k' rec'. destruct (decide (k = k')) as [<- | Hne].
  - now rewrite lookup_delete_eq.
  - rewrite lookup_delete_ne by exact Hne. apply Hm.
Qed.

Lemma layers_ok_foldr_delete m ks : layers_ok m -> layers_ok (foldr delete m ks).
Proof. intros Hm. induction ks; cbn; auto using layers_ok_delete. Qed.

Lemma layers_ok_empty : layers_ok ∅.
Proof. intros k rec H. now rewrite lookup_empty in H. Qed.

(** *** The counter and the log *)

Lemma generateLayerId_eq t w :
  generateLayerId t w =
  let c := N.succ (layerCounter (this w)) in
  let lid := t +:+ "-" +:+ pretty c in
  (Returned lid,
   mkWorld (set_layerCounter c (this w)) (clock w) (clockReads w) (lid :: issued w)).
Proof. reflexivity. Qed.

Lemma log_ok_issue c l t :
  log_ok c l -> log_ok (N.succ c) ((t +:+ "-" +:+ pretty (N.succ c)) :: l).
Proof.
  intros [Hnd Hl]. split.
  - constructor; [| exact Hnd]. intros Hin.
    destruct (Hl _ Hin) as (t' & n & Hn & E).
    apply IdFacts.layerId_counter_inj in E. lia.
  - intros s Hs. apply elem_of_cons in Hs as [-> | Hs].
    + exists t, (N.succ c). split; [lia | reflexivity].
    + destruct (Hl _ Hs) as (t' & n & Hn & E). exists t', n. split; [lia | exact E].
Qed.

Lemma resolve_log_ok i w :
  log_ok (layerCounter (this w)) (issued w) ->
  log_ok (layerCounter (this (snd (resolve i w)))) (issued (snd (resolve i w))).
Proof.
  unfold resolve. destruct (truthy (id i)); cbn; [auto |]. apply log_ok_issue.
Qed.

Lemma resolve_counter i w :
  (layerCounter (this w) <= layerCounter (this (snd (resolve i w))))%N.
Proof. unfold resolve. destruct (truthy (id i)); cbn; lia. Qed.

Lemma addLayer_log i w :
  layerCounter (this (snd (addLayer i w))) = layerCounter (this (snd (resolve i w)))
  /\ issued (snd (addLayer i w)) = issued (snd (resolve i w)).
Proof.
  rewrite addLayer_unfold.
  destruct (switch_type (type i)) as [m |]; cbn; [| auto].
  destruct (LayerGenerators m); cbn; auto.
Qed.

Lemma addLayer_counter i w :
  (layerCounter (this w) <= layerCounter (this (snd (addLayer i w))))%N.
Proof. destruct (addLayer_log i w) as [-> _]. apply resolve_counter. Qed.

Lemma addLayer_Inv i w : Inv w -> Inv (snd (addLayer i w)).
Proof.
  intros [Hl Hg]. split.
  - rewrite addLayer_unfold.
    destruct (switch_type (type i)) as [m |] eqn:E1; cbn; [| now rewrite resolve_layers].
    destruct (LayerGenerators m) as [f |] eqn:E2; cbn; [| now rewrite resolve_layers].
    rewrite resolve_layers. apply layers_ok_insert.
    + exact Hl.
    + apply resolve_nonempty.
    + cbn. eapply supported_of_generator; eauto.
  - destruct (addLayer_log i w) as [-> ->]. now apply resolve_log_ok.
Qed.

Lemma after_Inv instructions w : Inv w -> Inv (after instructions w).
Proof.
  revert w. induction instructions as [| i rest IH]; intros w H; cbn; [exact H |].
  apply IH. now apply addLayer_Inv.
Qed.

Lemma after_counter instructions w :
  (layerCounter (this w) <= layerCounter (this (after instructions w)))%N.
Proof.
  revert w. induction instructions as [| i rest IH]; intros w; cbn; [lia |].
  pose proof (addLayer_counter i w). pose proof (IH (snd (addLayer i w))). lia.
Qed.

Lemma updateLayerOptions_unfold layerId newOptions w :
  updateLayerOptions layerId newOptions w =
  match layers (this w) !! layerId with
  | Some rec =>
      let i := mkInstruction (li_type rec) (li_data rec)
                 (Some (spread (li_options rec) newOptions)) (Some layerId) in
      let w1 := with_options layerId rec newOptions w in
      match fst (addLayer i w1) with
      | Returned _ => (Returned true, snd (addLayer i w1))
      | Thrown e => (Thrown e, snd (addLayer i w1))
      end
  | None => (Returned false, w)
  end.
Proof.
  unfold updateLayerOptions, bind, get_this, set_this, with_options. cbn.
  destruct (layers (this w) !! layerId) as [rec |]; cbn; [| reflexivity].
  destruct (addLayer _ _) as [[r | e] w']; reflexivity.
Qed.

Lemma with_options_Inv layerId rec newOptions w :
  Inv w -> layers (this w) !! layerId = Some rec ->
  Inv (with_options layerId rec newOptions w).
Proof.
  intros [Hl Hg] Hrec. split; [| exact Hg]. cbn.
  destruct (Hl _ _ Hrec) as [Hk Ht]. now apply layers_ok_insert.
Qed.

Lemma perform_Inv c w : Inv w -> Inv (perform c w).
Proof.
  intros H. destruct c as [i | l | t | l d | l o | | instructions | t]; cbn [perform].
  - now apply addLayer_Inv.
  - destruct H as [Hl Hg]. split; [| exact Hg]. cbn. now apply layers_ok_delete.
  - destruct H as [Hl Hg]. split; [| exact Hg]. cbn. now apply layers_ok_foldr_delete.
  - unfold updateLayerData, bind, get_this. cbn.
    destruct (layers (this w) !! l) as [rec |] eqn:E; cbn; [| exact H].
    destruct H as [Hl Hg]. split; [| exact Hg]. cbn.
    destruct (Hl _ _ E) as [Hk Ht]. now apply layers_ok_insert.
  - rewrite updateLayerOptions_unfold.
    destruct (layers (this w) !! l) as [rec |] eqn:E; cbn; [| exact H].
    pose proof (addLayer_Inv
                  (mkInstruction (li_type rec) (li_data rec)
                     (Some (spread (li_options rec) o)) (Some l))
                  _ (with_options_Inv l rec o w H E)) as H'.
    destruct (fst (addLayer _ _)); exact H'.
  - destruct H as [Hl Hg]. split; [| exact Hg]. cbn. apply layers_ok_empty.
  - rewrite processEventBatch_eq. cbn. now apply after_Inv.
  - destruct H as [Hl Hg]. split; [exact Hl |]. cbn. now apply log_ok_issue.
Qed.

Lemma run_Inv calls w : Inv w -> Inv (run calls w).
Proof.
  revert w. induction calls as [| c calls IH]; intros w H; cbn; [exact H |].
  apply IH. now apply perform_Inv.
Qed.

Lemma perform_counter c w :
  (layerCounter (this w) <= layerCounter (this (perform c w)))%N.
Proof.
  destruct c as [i | l | t | l d | l o | | instructions | t]; cbn [perform];
    try (cbn; lia).
  - apply addLayer_counter.
  - unfold updateLayerData, bind, get_this. cbn.
    destruct (layers (this w) !! l); cbn; lia.
  - rewrite updateLayerOptions_unfold.
    destruct (layers (this w) !! l) as [rec |]; cbn; [| lia].
    match goal with
    | |- context [addLayer ?i ?w1] => pose proof (addLayer_counter i w1) as H
    end.
    cbn in H. destruct (fst (addLayer _ _)); exact H.
  - rewrite processEventBatch_eq. cbn. apply after_counter.
Qed.

End Invariants.

(** ** Updates and identifier generation *)

Module ManagerClaims.

Import Js Manager ManagerViews AddLayerFacts BatchFacts Invariants.

Lemma num_or_zero t : num_or (Some t) 0 = t.
Proof. unfold num_or. destruct (Req_dec_T t 0); congruence. Qed.

(** The radius accessor of a pulsing dot, for any options. *)
Lemma createPulsingDotLayer_radius id data options t :
  exists p,
    createPulsingDotLayer id data options = ScatterplotLayer p
    /\ sp_getRadius p (Some t) =
       default 10000 (baseRadius options)
       * (1 + default 0.3 (pulseIntensity options)
              * sin (t * 0.002 * default 2 (pulseSpeed options))).
Proof.
  eexists. split; [reflexivity |]. cbn [sp_getRadius]. now rewrite num_or_zero.
Qed.

(** C5 (evaluation at the failing input).  With no numeric option given,
    the pulsing-dot layer has radius
    [10000 * (1 + 0.3 * sin (t * 0.002 * 2))] at clock time [t], hence
    10000 at t = 0: the pulse intensity 0.3, the pulse speed 2 and the
    formula are the documented ones, the default base radius is 10000 and
    not 5000. *)
Theorem createPulsingDotLayer_default_radius id data t :
  exists p,
    createPulsingDotLayer id data no_options = ScatterplotLayer p
    /\ sp_getRadius p (Some t) = 10000 * (1 + 0.3 * sin (t * 0.002 * 2))
    /\ sp_getRadius p (Some 0) = 10000
    /\ sp_getRadius p (Some 0) <> 5000.
Proof.
  eexists. split; [reflexivity |]. cbn [sp_getRadius].
  rewrite !num_or_zero. cbv [from_option Datatypes.id]. cbn [baseRadius pulseIntensity pulseSpeed no_options].
  replace (0 * 0.002 * 2) with 0 by lra. rewrite sin_0.
  repeat split; lra.
Qed.

Lemma updateLayerData_unfold layerId newData w :
  updateLayerData layerId newData w =
  match layers (this w) !! layerId with
  | Some rec =>
      (Thrown (TypeError "layerInfo.layer.setProps is not a function"),
       mkWorld
         (set_layers
            (<[layerId := mkLayerInfo (li_layer rec) (li_type rec)
                            newData (li_options rec) (li_createdAt rec)]>
               (layers (this w)))
            (this w))
         (clock w) (clockReads w) (issued w))
  | None => (Returned false, w)
  end.
Proof.
  unfold updateLayerData, bind, get_this. cbn.
  destruct (layers (this w) !! layerId); reflexivity.
Qed.

(** C9.  In a manager reached by any sequence of calls, for every stored
    layer id: [updateLayerOptions] succeeds and leaves under that id a
    record re-created and stored by [addLayer] (called with the stored type
    and data, the merged options and that id), with the same type and data,
    the merged options, and [createdAt] set to the clock reading of the
    update;
    [updateLayerData] assigns the new data to the record and then throws
    the [TypeError] of its call of [setProps], which the layer does not
    have; the record it leaves has the new data and the stored [createdAt],
    type, options and layer. *)
Theorem updateLayerOptions_resets_createdAt calls clock0 layerId rec newOptions newData :
  let w := run calls (boot clock0) in
  layers (this w) !! layerId = Some rec ->
  (fst (updateLayerOptions layerId newOptions w) = Returned true
   /\ (let i := mkInstruction (li_type rec) (li_data rec)
                  (Some (spread (li_options rec) newOptions)) (Some layerId) in
       let w1 := with_options layerId rec newOptions w in
       fst (addLayer i w1) = Returned (Some layerId)
       /\ snd (updateLayerOptions layerId newOptions w) = snd (addLayer i w1))
   /\ exists rec',
        layers (this (snd (updateLayerOptions layerId newOptions w))) !! layerId = Some rec'
        /\ li_createdAt rec' = clock w (clockReads w)
        /\ li_type rec' = li_type rec
        /\ li_data rec' = li_data rec
        /\ li_options rec' = spread (li_options rec) newOptions)
  /\ (fst (updateLayerData layerId newData w)
      = Thrown (TypeError "layerInfo.layer.setProps is not a function")
      /\ exists rec'',
           layers (this (snd (updateLayerData layerId newData w))) !! layerId = Some rec''
           /\ li_createdAt rec'' = li_createdAt rec
           /\ li_type rec'' = li_type rec
           /\ li_options rec'' = li_options rec
           /\ li_data rec'' = newData
           /\ li_layer rec'' = li_layer rec).
Proof.
  intros w Hrec.
  assert (HI : Inv w) by (apply run_Inv, boot_Inv).
  destruct HI as [Hl _]. destruct (Hl _ _ Hrec) as [Hk Ht].
  split.
  - rewrite updateLayerOptions_unfold, Hrec. cbv zeta.
    set (i := mkInstruction _ _ _ _). set (w1 := with_options _ _ _ _).
    assert (Hres : resolve i w1 = (layerId, w1)) by (now apply resolve_given).
    destruct (switch_type_supported _ Ht) as (m & f & E1 & E2).
    assert (Hadd : addLayer i w1 =
                   (Returned (Some layerId),
                    store layerId (f layerId (data i) (default no_options (options i))) i w1)).
    { rewrite addLayer_unfold. cbn [type i]. rewrite E1, E2, Hres. reflexivity. }
    subst i w1. rewrite Hadd. cbn [fst snd]. split; [reflexivity |].
    split; [split; reflexivity |].
    eexists. split; [cbn; apply lookup_insert_eq |]. cbn. auto.
  - rewrite updateLayerData_unfold, Hrec. cbn [fst snd]. split; [reflexivity |].
    eexists. split; [cbn; apply lookup_insert_eq |]. cbn. auto 6.
Qed.

(** C10.  [generateLayerId] returns [type-counter] for the incremented
    counter and records nothing else; [removeLayer], [removeLayersByType]
    and [clearAllLayers] leave the counter as it is and no call lowers it;
    over every sequence of calls on a new manager the identifiers issued
    are pairwise distinct. *)
Theorem generateLayerId_never_repeats :
  (forall t w,
      let c := N.succ (layerCounter (this w)) in
      fst (generateLayerId t w) = Returned (t +:+ "-" +:+ pretty c)
      /\ layerCounter (this (snd (generateLayerId t w))) = c
      /\ issued (snd (generateLayerId t w)) = (t +:+ "-" +:+ pretty c) :: issued w)
  /\ (forall w l t,
        layerCounter (this (perform (RemoveLayer l) w)) = layerCounter (this w)
        /\ layerCounter (this (perform (RemoveLayersByType t) w)) = layerCounter (this w)
        /\ layerCounter (this (perform ClearAllLayers w)) = layerCounter (this w))
  /\ (forall c w, (layerCounter (this w) <= layerCounter (this (perform c w)))%N)
  /\ (forall calls clock0, NoDup (issued (run calls (boot clock0)))).
Proof.
  split; [| split; [| split]].
  - intros t w c. rewrite generateLayerId_eq. cbn. auto.
  - intros w l t. cbn. auto.
  - apply perform_counter.
  - intros calls clock0.
    pose proof (run_Inv calls _ (boot_Inv clock0)) as [_ [Hnd _]]. exact Hnd.
Qed.

(** C9 (witness).  One pulsing dot created at clock reading 1000; an
    options update then stamps the record with the next reading, 1001; a
    data update throws and leaves a record stamped 1000. *)
Lemma updateLayerOptions_resets_createdAt_witness :
  let w := run [AddLayer sample_dot] (boot sample_clock) in
  layers (this w) !! "pulsing_dot-1" = Some sample_record
  /\ (exists rec',
        layers (this (snd (updateLayerOptions "pulsing_dot-1" no_options w)))
          !! "pulsing_dot-1" = Some rec'
        /\ li_createdAt rec' = 1001%Z
        /\ li_createdAt sample_record = 1000%Z)
  /\ fst (updateLayerData "pulsing_dot-1" [] w)
     = Thrown (TypeError "layerInfo.layer.setProps is not a function")
  /\ (exists rec'',
        layers (this (snd (updateLayerData "pulsing_dot-1" [] w)))
          !! "pulsing_dot-1" = Some rec''
        /\ li_createdAt rec'' = 1000%Z
        /\ li_data rec'' = []).
Proof.
  intros w.
  assert (H : layers (this w) !! "pulsing_dot-1" = Some sample_record) by reflexivity.
  split; [exact H |].
  destruct (updateLayerOptions_resets_createdAt
              [AddLayer sample_dot] sample_clock "pulsing_dot-1" sample_record
              no_options [] H)
    as [(_ & _ & rec' & H1 & H2 & _) (H3 & rec'' & H4 & H5 & _ & _ & H6 & _)].
  split; [| split].
  - exists rec'. split; [exact H1 |]. split; [| reflexivity].
    rewrite H2. reflexivity.
  - exact H3.
  - exists rec''. split; [exact H4 |]. split; [| exact H6].
    rewrite H5. reflexivity.
Defined.

End ManagerClaims.

(** ** Further properties of the PlotManager *)

Module ManagerExtraFacts.
Import Js Manager ManagerViews ManagerQueries AddLayerFacts BatchFacts Invariants.

(** *** Removing layers *)

(** X1.  [removeLayer] answers whether the id was stored, leaves the id absent
    and every other id as it was, keeps the counter, and a second call
    answers [false] and changes nothing. *)
Theorem removeLayer_deletes_one w layerId :
  let w' := snd (removeLayer layerId w) in
  (fst (removeLayer layerId w) = Returned true <-> is_Some (layers (this w) !! layerId))
  /\ layers (this w') !! layerId = None
  /\ (forall k, k <> layerId -> layers (this w') !! k = layers (this w) !! k)
  /\ layerCounter (this w') = layerCounter (this w)
  /\ removeLayer layerId w' = (Returned false, w').
Proof.
  cbn. repeat split.
  - intros [= H]. now apply bool_decide_eq_true in H.
  - intros H. f_equal. now apply bool_decide_eq_true.
  - apply lookup_delete_eq.
  - intros k Hk. now apply lookup_delete_ne.
  - unfold removeLayer, bind, get_this, set_this, set_layers. cbn.
    rewrite lookup_delete_eq.
    rewrite (delete_id (delete layerId (layers (this w))) layerId)
      by apply lookup_delete_eq.
    rewrite bool_decide_eq_false_2 by (now intros [? [=]]). reflexivity.
Qed.

Lemma removeLayersByType_eq t w :
  removeLayersByType t w =
  (Returned (size (of_type t (layers (this w)))),
   mkWorld
     (set_layers (foldr delete (layers (this w)) (map_to_list (of_type t (layers (this w)))).*1)
                 (this w))
     (clock w) (clockReads w) (issued w)).
Proof.
  unfold removeLayersByType, bind, get_this, set_this, of_type. cbn.
  f_equal. f_equal. now rewrite length_fmap, length_map_to_list.
Qed.

Lemma elem_of_keys_of_type t (m : gmap string LayerInfo) k :
  k ∈ (map_to_list (of_type t m)).*1 <-> exists rec, m !! k = Some rec /\ li_type rec = t.
Proof.
  rewrite list_elem_of_fmap. split.
  - intros ([k' rec] & -> & H). apply elem_of_map_to_list in H.
    apply map_lookup_filter_Some in H as [H1 H2]. eauto.
  - intros (rec & H1 & H2). exists (k, rec). split; [reflexivity |].
    apply elem_of_map_to_list. now apply map_lookup_filter_Some.
Qed.

(** X2.  [removeLayersByType] returns the number of stored layers of the type;
    afterwards exactly the layers of the other types are stored, unchanged,
    and a second call removes nothing. *)
Theorem removeLayersByType_removes_type w t :
  let w' := snd (removeLayersByType t w) in
  fst (removeLayersByType t w) = Returned (size (of_type t (layers (this w))))
  /\ (forall k rec,
        layers (this w') !! k = Some rec <->
        layers (this w) !! k = Some rec /\ li_type rec <> t)
  /\ layerCounter (this w') = layerCounter (this w)
  /\ fst (removeLayersByType t w') = Returned 0%nat.
Proof.
  intros w'. subst w'. rewrite !removeLayersByType_eq. cbn [fst snd].
  assert (Hlook : forall k rec,
             foldr delete (layers (this w)) (map_to_list (of_type t (layers (this w)))).*1
               !! k = Some rec <->
             layers (this w) !! k = Some rec /\ li_type rec <> t).
  { intros k rec. rewrite lookup_foldr_delete_Some, elem_of_keys_of_type. split.
    - intros [Hn Hk]. split; [exact Hk |]. intros Ht. apply Hn. eauto.
    - intros [Hk Ht]. split; [| exact Hk]. intros (rec' & Hk' & Ht').
      rewrite Hk in Hk'. injection Hk' as <-. contradiction. }
  split; [reflexivity |]. split; [exact Hlook |]. split; [reflexivity |].
  f_equal. cbn. apply map_size_empty_iff. apply map_empty. intros k.
  apply map_lookup_filter_None. right. intros rec Hk Ht.
  apply Hlook in Hk as [_ Hne]. contradiction.
Qed.

(** *** Statistics *)

Lemma count_type_comm x1 x2 (stats : gmap string nat) :
  count_type x1 (count_type x2 stats) = count_type x2 (count_type x1 stats).
Proof.
  unfold count_type. apply map_eq. intros t.
  destruct (decide (li_type x1 = li_type x2)) as [E | N].
  - rewrite E. rewrite !lookup_insert_eq. reflexivity.
  - rewrite (lookup_insert_ne _ (li_type x2) (li_type x1)) by congruence.
    rewrite (lookup_insert_ne _ (li_type x1) (li_type x2)) by congruence.
    destruct (decide (t = li_type x1)) as [-> | N1].
    + rewrite lookup_insert_eq, lookup_insert_ne by congruence.
      now rewrite lookup_insert_eq.
    + rewrite (lookup_insert_ne _ (li_type x1) t) by congruence.
      destruct (decide (t = li_type x2)) as [-> | N2].
      * now rewrite !lookup_insert_eq.
      * rewrite !lookup_insert_ne by congruence. reflexivity.
Qed.

Lemma of_type_insert_same t i x (m : gmap string LayerInfo) :
  m !! i = None -> li_type x = t ->
  size (of_type t (<[i := x]> m)) = S (size (of_type t m)).
Proof.
  intros Hi Ht. unfold of_type. rewrite map_filter_insert_True by exact Ht.
  apply map_size_insert_None. apply map_lookup_filter_None. now left.
Qed.

Lemma of_type_insert_other t i x (m : gmap string LayerInfo) :
  m !! i = None -> li_type x <> t ->
  of_type t (<[i := x]> m) = of_type t m.
Proof.
  intros Hi Ht. unfold of_type. rewrite map_filter_insert_False by exact Ht.
  now rewrite delete_id.
Qed.

Lemma stats_lookup (m : gmap string LayerInfo) t :
  map_fold (fun _ info stats => count_type info stats) ∅ m !! t =
  if decide (size (of_type t m) = 0%nat) then None else Some (size (of_type t m)).
Proof.
  induction m as [| i x m Hi IH] using map_ind.
  - rewrite map_fold_empty, lookup_empty. unfold of_type.
    rewrite map_filter_empty, map_size_empty. reflexivity.
  - rewrite map_fold_insert_L; [| intros; apply count_type_comm | exact Hi].
    unfold count_type at 1. destruct (decide (li_type x = t)) as [E | N].
    + rewrite E, lookup_insert_eq, IH, (of_type_insert_same t) by assumption.
      destruct (decide (S (size (of_type t m)) = 0%nat)) as [? | _]; [lia |].
      destruct (decide (size (of_type t m) = 0%nat)) as [-> | _]; reflexivity.
    + rewrite lookup_insert_ne by exact N.
      rewrite IH, (of_type_insert_other t) by assumption. reflexivity.
Qed.

Lemma layers_ok_size (m : gmap string LayerInfo) :
  layers_ok m ->
  size m = (size (of_type "pulsing_dot" m) + size (of_type "animated_arc" m))%nat.
Proof.
  induction m as [| i x m Hi IH] using map_ind; intros Hok.
  - unfold of_type. now rewrite !map_filter_empty, map_size_empty.
  - assert (Hm : layers_ok m).
    { intros k rec Hk. apply (Hok k rec). rewrite lookup_insert_ne; [exact Hk |].
      intros ->. rewrite Hi in Hk. discriminate. }
    rewrite map_size_insert_None by exact Hi. rewrite (IH Hm).
    destruct (Hok i x (lookup_insert_eq _ _ _)) as [_ [Ht | Ht]].
    + rewrite (of_type_insert_same "pulsing_dot"), (of_type_insert_other "animated_arc")
        by (try assumption; rewrite Ht; discriminate). lia.
    + rewrite (of_type_insert_other "pulsing_dot"), (of_type_insert_same "animated_arc")
        by (try assumption; rewrite Ht; discriminate). lia.
Qed.

(** X3.  In a manager reached by any sequence of calls, [getLayerStats] changes
    nothing and maps each type to the number of stored layers of that type
    (a type without layers has no entry); the two counts that can occur add
    up to the number of stored layers, and the count of a type is what
    [removeLayersByType] would return. *)
Theorem getLayerStats_counts calls clock0 :
  let w := run calls (boot clock0) in
  exists stats,
    getLayerStats w = (Returned stats, w)
    /\ (forall t, default 0%nat (stats !! t) = size (of_type t (layers (this w)))
                  /\ (stats !! t = None <-> of_type t (layers (this w)) = ∅))
    /\ size (layers (this w))
       = (default 0 (stats !! "pulsing_dot") + default 0 (stats !! "animated_arc"))%nat
    /\ (forall t, fst (removeLayersByType t w) = Returned (default 0%nat (stats !! t))).
Proof.
  intros w. eexists. split; [reflexivity |].
  assert (Hd : forall t,
             default 0%nat
               (map_fold (fun _ info stats => count_type info stats) ∅ (layers (this w)) !! t)
             = size (of_type t (layers (this w)))).
  { intros t. rewrite stats_lookup.
    destruct (decide (size (of_type t (layers (this w))) = 0%nat)) as [E | _];
      [now rewrite E | reflexivity]. }
  split; [| split].
  - intros t. split; [apply Hd |]. rewrite stats_lookup, <- map_size_empty_iff.
    destruct (decide (size (of_type t (layers (this w))) = 0%nat)); split;
      congruence.
  - rewrite !Hd. apply layers_ok_size.
    now destruct (run_Inv calls _ (boot_Inv clock0)).
  - intros t. rewrite removeLayersByType_eq, Hd. reflexivity.
Qed.

(** *** Creating layers *)

Lemma generator_cases t m f :
  switch_type t = Some m -> LayerGenerators m = Some f ->
  (t = "pulsing_dot" /\ f = createPulsingDotLayer)
  \/ (t = "animated_arc" /\ f = createArcLayer).
Proof.
  unfold switch_type.
  repeat match goal with
         | |- context [String.eqb t ?s] => destruct (String.eqb_spec t s) as [-> | _]
         end;
    intros E1 E2; try discriminate;
    injection E1 as <-; cbn in E2; try discriminate;
    injection E2 as <-; auto.
Qed.

(** The layers after [addLayer]: untouched, or with one rendered record put
    under the resolved id. *)
Lemma addLayer_layers i w :
  match fst (addLayer i w) with
  | Returned (Some lid) =>
      lid = fst (resolve i w)
      /\ exists rec,
           layers (this (snd (addLayer i w))) = <[lid := rec]> (layers (this w))
           /\ rendered lid rec
           /\ li_type rec = type i /\ li_data rec = data i
           /\ li_options rec = default no_options (options i)
           /\ li_createdAt rec = clock w (clockReads w)
  | _ => layers (this (snd (addLayer i w))) = layers (this w)
  end.
Proof.
  rewrite addLayer_unfold.
  destruct (switch_type (type i)) as [m |] eqn:E1; cbn; [| apply resolve_layers].
  destruct (LayerGenerators m) as [f |] eqn:E2; cbn; [| apply resolve_layers].
  split; [reflexivity |]. eexists. rewrite resolve_layers.
  destruct (resolve_clock i w) as [-> ->].
  split; [reflexivity |]. cbn. repeat split.
  unfold rendered. cbn.
  destruct (generator_cases _ _ _ E1 E2) as [[-> ->] | [-> ->]]; auto.
Qed.

(** X4.  Insert and look up: when [addLayer] returns an id, [getLayerInfo] finds
    under it a record with the instruction's type and data, its options (or
    the empty object), the clock reading of the call and the layer its
    generator builds; a supplied truthy id is the one returned, every other
    id is as before, and the number of layers grows by one exactly when the
    id was not stored yet. *)
Theorem addLayer_then_getLayerInfo i w lid :
  fst (addLayer i w) = Returned (Some lid) ->
  let w' := snd (addLayer i w) in
  (exists rec,
      fst (getLayerInfo lid w') = Returned (Some rec)
      /\ li_type rec = type i
      /\ li_data rec = data i
      /\ li_options rec = default no_options (options i)
      /\ li_createdAt rec = clock w (clockReads w)
      /\ rendered lid rec)
  /\ (truthy (id i) = true -> id i = Some lid)
  /\ (forall k, k <> lid -> layers (this w') !! k = layers (this w) !! k)
  /\ size (layers (this w'))
     = match layers (this w) !! lid with
       | Some _ => size (layers (this w))
       | None => S (size (layers (this w)))
       end.
Proof.
  intros H w'. subst w'. pose proof (addLayer_layers i w) as HL. rewrite H in HL.
  destruct HL as (Hlid & rec & HL & Hr & Ht & Hd & Ho & Hc).
  split; [| split; [| split]].
  - exists rec. unfold getLayerInfo, bind, get_this. cbn.
    rewrite HL, lookup_insert_eq. auto 6.
  - intros Hi. subst lid. unfold resolve. rewrite Hi. cbn.
    apply truthy_Some in Hi as (x & -> & _). reflexivity.
  - intros k Hk. rewrite HL. now apply lookup_insert_ne.
  - rewrite HL. destruct (layers (this w) !! lid) as [old |] eqn:E.
    + now apply map_size_insert_Some.
    + now apply map_size_insert_None.
Qed.

(** One pulsing dot added to a new manager is found under [pulsing_dot-1]. *)
Lemma addLayer_then_getLayerInfo_witness :
  fst (addLayer sample_dot (boot sample_clock)) = Returned (Some "pulsing_dot-1")
  /\ exists rec,
       fst (getLayerInfo "pulsing_dot-1" (snd (addLayer sample_dot (boot sample_clock))))
       = Returned (Some rec)
       /\ li_type rec = "pulsing_dot" /\ li_createdAt rec = 1000%Z.
Proof.
  assert (H : fst (addLayer sample_dot (boot sample_clock)) = Returned (Some "pulsing_dot-1"))
    by reflexivity.
  split; [exact H |].
  destruct (addLayer_then_getLayerInfo sample_dot (boot sample_clock) "pulsing_dot-1" H)
    as [(rec & H1 & H2 & _ & _ & H5 & _) _].
  exists rec. split; [exact H1 |]. split; [exact H2 | exact H5].
Defined.

(** X5.  A call of [addLayer] that returns [null] or throws stores nothing: the
    layers are as before.  When the instruction brought no id, the call has
    all the same used up a counter value. *)
Theorem addLayer_failure_stores_nothing i w :
  (fst (addLayer i w) = Returned None \/ exists e, fst (addLayer i w) = Thrown e) ->
  layers (this (snd (addLayer i w))) = layers (this w)
  /\ (truthy (id i) = false ->
      layerCounter (this (snd (addLayer i w))) = N.succ (layerCounter (this w))).
Proof.
  intros H. split.
  - pose proof (addLayer_layers i w) as HL.
    destruct H as [H | [e H]]; rewrite H in HL; exact HL.
  - intros Hi. destruct (addLayer_log i w) as [-> _].
    unfold resolve. rewrite Hi. reflexivity.
Qed.

(** An explosion instruction without id on a new manager: nothing is stored
    and the counter moves to 1. *)
Lemma addLayer_failure_stores_nothing_witness :
  layers (this (snd (addLayer sample_explosion (boot sample_clock)))) = ∅
  /\ layerCounter (this (snd (addLayer sample_explosion (boot sample_clock)))) = 1%N.
Proof.
  assert (H : fst (addLayer sample_explosion (boot sample_clock)) = Returned None
              \/ exists e, fst (addLayer sample_explosion (boot sample_clock)) = Thrown e)
    by (right; eexists; reflexivity).
  destruct (addLayer_failure_stores_nothing sample_explosion (boot sample_clock) H)
    as [H1 H2].
  split; [exact H1 | apply H2; reflexivity].
Defined.

(** *** Calls on an id that is not stored *)

(** X6.  For an id that is not stored, [updateLayerData], [updateLayerOptions]
    and [removeLayer] answer [false], [getLayerInfo] answers [undefined],
    and none of them changes the manager or reads the clock. *)
Theorem calls_on_missing_id w layerId newData newOptions :
  layers (this w) !! layerId = None ->
  updateLayerData layerId newData w = (Returned false, w)
  /\ updateLayerOptions layerId newOptions w = (Returned false, w)
  /\ fst (removeLayer layerId w) = Returned false
  /\ layers (this (snd (removeLayer layerId w))) = layers (this w)
  /\ getLayerInfo layerId w = (Returned None, w).
Proof.
  intros H. split; [| split; [| split; [| split]]].
  - unfold updateLayerData, bind, get_this. cbn. now rewrite H.
  - rewrite updateLayerOptions_unfold. now rewrite H.
  - cbn. rewrite H. reflexivity.
  - cbn. now apply delete_id.
  - unfold getLayerInfo, bind, get_this. cbn. now rewrite H.
Qed.

Lemma calls_on_missing_id_witness :
  updateLayerOptions "ghost" no_options (boot sample_clock)
  = (Returned false, boot sample_clock).
Proof.
  apply (calls_on_missing_id (boot sample_clock) "ghost" [] no_options). reflexivity.
Defined.

(** *** Stored layers are the rendering of their record *)

Lemma rendered_layer_eq k r1 r2 :
  rendered k r1 -> rendered k r2 ->
  li_type r1 = li_type r2 -> li_data r1 = li_data r2 -> li_options r1 = li_options r2 ->
  li_layer r1 = li_layer r2.
Proof.
  intros [[T1 L1] | [T1 L1]] [[T2 L2] | [T2 L2]] Ht Hd Ho;
    rewrite L1, L2; try congruence; rewrite T1, T2 in Ht; discriminate.
Qed.

(** What [updateLayerOptions] does to a stored id of a well-formed manager. *)
Lemma updateLayerOptions_layers layerId newOptions w rec :
  Inv w -> layers (this w) !! layerId = Some rec ->
  let w' := snd (updateLayerOptions layerId newOptions w) in
  fst (updateLayerOptions layerId newOptions w) = Returned true
  /\ clock w' = clock w /\ clockReads w' = S (clockReads w)
  /\ exists rec',
       layers (this w') = <[layerId := rec']> (layers (this w))
       /\ rendered layerId rec'
       /\ li_type rec' = li_type rec
       /\ li_data rec' = li_data rec
       /\ li_options rec' = spread (li_options rec) newOptions
       /\ li_createdAt rec' = clock w (clockReads w).
Proof.
  intros [Hl _] Hrec. destruct (Hl _ _ Hrec) as [Hk Ht]. cbv zeta.
  rewrite updateLayerOptions_unfold, Hrec. cbv zeta.
  set (i := mkInstruction _ _ _ _). set (w1 := with_options _ _ _ _).
  assert (Hres : resolve i w1 = (layerId, w1)) by (now apply resolve_given).
  pose proof (addLayer_layers i w1) as HL.
  rewrite (addLayer_supported i w1 Ht), Hres in HL. cbn [fst] in HL.
  destruct HL as (_ & rec' & HL & Hr & H1 & H2 & H3 & H4).
  rewrite (addLayer_supported i w1 Ht). cbn [fst snd].
  assert (Hclk : clock (snd (addLayer i w1)) = clock w
                 /\ clockReads (snd (addLayer i w1)) = S (clockReads w)).
  { rewrite addLayer_unfold.
    destruct (switch_type_supported _ Ht) as (m & f & E1 & E2).
    cbn [type i]. rewrite E1, E2, Hres. cbn. auto. }
  destruct Hclk as [Hc1 Hc2].
  split; [reflexivity |]. split; [exact Hc1 |]. split; [exact Hc2 |].
  exists rec'. split.
  - rewrite HL. cbn. apply insert_insert_eq.
  - auto 6.
Qed.

(** Properties of the stored records that every new rendering has are kept
    by the calls; [updateLayerData] keeps those that do not depend on the
    record's data. *)
Section StoredRecords.
Variable P : string -> LayerInfo -> Prop.
Hypothesis P_rendered : forall k rec, rendered k rec -> P k rec.

Lemma records_insert (m : gmap string LayerInfo) k rec :
  map_Forall P m -> P k rec -> map_Forall P (<[k := rec]> m).
Proof.
  intros Hm Hr k' rec'. destruct (decide (k = k')) as [<- | Hne].
  - rewrite lookup_insert_eq. now intros [= <-].
  - rewrite lookup_insert_ne by exact Hne. apply Hm.
Qed.

Lemma addLayer_records i w :
  map_Forall P (layers (this w)) -> map_Forall P (layers (this (snd (addLayer i w)))).
Proof.
  intros H. pose proof (addLayer_layers i w) as HL.
  destruct (fst (addLayer i w)) as [[lid |] | e]; try (now rewrite HL).
  destruct HL as (_ & rec & -> & Hr & _). apply records_insert; [exact H |].
  now apply P_rendered.
Qed.

Lemma after_records instructions w :
  map_Forall P (layers (this w)) -> map_Forall P (layers (this (after instructions w))).
Proof.
  revert w. induction instructions as [| i rest IH]; intros w H; cbn; [exact H |].
  apply IH. now apply addLayer_records.
Qed.

Lemma perform_records c w :
  Inv w -> is_updateLayerData c = false \/ data_free P ->
  map_Forall P (layers (this w)) -> map_Forall P (layers (this (perform c w))).
Proof.
  intros HI Hc H. destruct c as [i | l | t | l d | l o | | instructions | t]; cbn [perform].
  - now apply addLayer_records.
  - cbn. intros k rec Hk. apply lookup_delete_Some in Hk as [_ Hk]. now apply H.
  - cbn. intros k rec Hk. apply lookup_foldr_delete_Some in Hk as [_ Hk]. now apply H.
  - destruct Hc as [Hc | Hc]; [discriminate Hc |].
    unfold updateLayerData, bind, get_this. cbn.
    destruct (layers (this w) !! l) as [rec |] eqn:E; cbn; [| exact H].
    apply records_insert; [exact H |]. apply Hc. now apply H.
  - destruct (layers (this w) !! l) as [rec |] eqn:E.
    + destruct (updateLayerOptions_layers l o w rec HI E)
        as (_ & _ & _ & rec' & -> & Hr & _).
      apply records_insert; [exact H |]. now apply P_rendered.
    + rewrite updateLayerOptions_unfold, E. exact H.
  - cbn. intros k rec Hk. now rewrite lookup_empty in Hk.
  - rewrite processEventBatch_eq. cbn. now apply after_records.
  - exact H.
Qed.

Lemma run_records calls w :
  Inv w -> Forall (fun c => is_updateLayerData c = false) calls \/ data_free P ->
  map_Forall P (layers (this w)) -> map_Forall P (layers (this (run calls w))).
Proof.
  revert w. induction calls as [| c calls IH]; intros w HI Hc H; cbn; [exact H |].
  apply IH.
  - now apply perform_Inv.
  - destruct Hc as [Hc | Hc]; [left; now inversion Hc | now right].
  - apply perform_records; [exact HI | | exact H].
    destruct Hc as [Hc | Hc]; [left; now inversion Hc | now right].
Qed.

End StoredRecords.

(** X7.  In a manager reached by any sequence of calls, every stored record
    has type [pulsing_dot] or [animated_arc], and its layer is the one the
    generator of that type builds from the record's id, the record's options
    and the data the layer was created with.  That data is the record's data
    when the sequence has no call of [updateLayerData], which assigns the
    record's data and throws before the layer is touched. *)
Theorem stored_layers_are_rendered calls clock0 k rec :
  layers (this (run calls (boot clock0))) !! k = Some rec ->
  built k rec
  /\ (Forall (fun c => is_updateLayerData c = false) calls -> rendered k rec).
Proof.
  intros Hk. split.
  - revert k rec Hk. apply (run_records built).
    + intros k rec Hr. exists (li_data rec). exact Hr.
    + apply boot_Inv.
    + right. intros k rec d [d0 Hr]. exists d0. exact Hr.
    + intros k rec H. cbn in H. now rewrite lookup_empty in H.
  - intros Hc. revert k rec Hk. apply (run_records rendered).
    + auto.
    + apply boot_Inv.
    + now left.
    + intros k rec H. cbn in H. now rewrite lookup_empty in H.
Qed.

(** X7 (witness).  After [updateLayerData] the record has the new data, and
    its layer is still the one built from the data of [addLayer]. *)
Lemma stored_layers_are_rendered_witness :
  layers (this (run [AddLayer sample_dot; UpdateLayerData "pulsing_dot-1" []]
                    (boot sample_clock))) !! "pulsing_dot-1"
  = Some (mkLayerInfo (createPulsingDotLayer "pulsing_dot-1" (data sample_dot) no_options)
                      "pulsing_dot" [] no_options 1000)
  /\ built "pulsing_dot-1"
       (mkLayerInfo (createPulsingDotLayer "pulsing_dot-1" (data sample_dot) no_options)
                    "pulsing_dot" [] no_options 1000).
Proof.
  assert (H : layers (this (run [AddLayer sample_dot; UpdateLayerData "pulsing_dot-1" []]
                                (boot sample_clock))) !! "pulsing_dot-1"
              = Some (mkLayerInfo
                        (createPulsingDotLayer "pulsing_dot-1" (data sample_dot) no_options)
                        "pulsing_dot" [] no_options 1000)) by reflexivity.
  split; [exact H |].
  exact (proj1 (stored_layers_are_rendered _ _ _ _ H)).
Defined.

(** *** Option updates compose *)

Lemma spread_assoc a b c : spread (spread a b) c = spread a (spread b c).
Proof.
  unfold spread. cbn.
  destruct c as [c1 c2 c3 c4 c5 c6 c7 c8 c9 c10 c11]. cbn.
  f_equal; match goal with |- context [spread_field _ ?x] => destruct x end; reflexivity.
Qed.

(** X8.  In a reached manager, updating the options of a stored layer with
    [o1] and then with [o2] leaves the same layers as one update with
    [{...o1, ...o2}], except for the [createdAt] stamp of the record: the
    record has the same type, data, options and layer, and every other id is
    stored alike. *)
Theorem updateLayerOptions_twice calls clock0 layerId rec o1 o2 :
  let w := run calls (boot clock0) in
  layers (this w) !! layerId = Some rec ->
  let w2 := snd (updateLayerOptions layerId o2 (snd (updateLayerOptions layerId o1 w))) in
  let w12 := snd (updateLayerOptions layerId (spread o1 o2) w) in
  (exists r2 r12,
      layers (this w2) !! layerId = Some r2
      /\ layers (this w12) !! layerId = Some r12
      /\ li_options r2 = spread (li_options rec) (spread o1 o2)
      /\ li_options r12 = li_options r2
      /\ li_type r12 = li_type r2 /\ li_data r12 = li_data r2
      /\ li_layer r12 = li_layer r2
      /\ li_createdAt r2 = clock w (S (clockReads w))
      /\ li_createdAt r12 = clock w (clockReads w))
  /\ (forall k, k <> layerId -> layers (this w2) !! k = layers (this w12) !! k).
Proof.
  intros w Hrec w2 w12.
  assert (HI : Inv w) by (apply run_Inv, boot_Inv).
  destruct (updateLayerOptions_layers layerId o1 w rec HI Hrec)
    as (_ & Hc1 & Hr1 & r1 & HL1 & Hrd1 & Ht1 & Hd1 & Ho1 & _).
  set (w1 := snd (updateLayerOptions layerId o1 w)) in *.
  assert (HI1 : Inv w1) by (apply (perform_Inv (UpdateLayerOptions layerId o1)), HI).
  assert (Hrec1 : layers (this w1) !! layerId = Some r1)
    by (rewrite HL1; apply lookup_insert_eq).
  destruct (updateLayerOptions_layers layerId o2 w1 r1 HI1 Hrec1)
    as (_ & _ & _ & r2 & HL2 & Hrd2 & Ht2 & Hd2 & Ho2 & Hs2).
  destruct (updateLayerOptions_layers layerId (spread o1 o2) w rec HI Hrec)
    as (_ & _ & _ & r12 & HL12 & Hrd12 & Ht12 & Hd12 & Ho12 & Hs12).
  fold w2 in HL2. fold w12 in HL12.
  assert (Ho : li_options r2 = spread (li_options rec) (spread o1 o2))
    by (rewrite Ho2, Ho1; apply spread_assoc).
  split.
  - exists r2, r12. rewrite HL2, HL12, !lookup_insert_eq.
    repeat split; try congruence.
    apply (rendered_layer_eq layerId); congruence.
  - intros k Hk. rewrite HL2, HL12, HL1. now rewrite !lookup_insert_ne by congruence.
Qed.

Lemma updateLayerOptions_twice_witness :
  let w := run [AddLayer sample_dot] (boot sample_clock) in
  exists r2,
    layers (this (snd (updateLayerOptions "pulsing_dot-1" no_options
                         (snd (updateLayerOptions "pulsing_dot-1" no_options w)))))
      !! "pulsing_dot-1" = Some r2
    /\ li_createdAt r2 = 1002%Z.
Proof.
  intros w.
  assert (H : layers (this w) !! "pulsing_dot-1" = Some sample_record) by reflexivity.
  destruct (updateLayerOptions_twice [AddLayer sample_dot] sample_clock "pulsing_dot-1"
              sample_record no_options no_options H)
    as [(r2 & r12 & H1 & _ & _ & _ & _ & _ & _ & H2 & _) _].
  exists r2. split; [exact H1 |]. rewrite H2. reflexivity.
Defined.

(** *** Batches *)

Lemma entries_app a b w : entries (a ++ b) w = entries a w ++ entries b (after a w).
Proof. revert w. induction a as [| i a IH]; intros w; cbn; [| rewrite IH]; reflexivity. Qed.

Lemma after_app a b w : after (a ++ b) w = after b (after a w).
Proof. revert w. induction a as [| i a IH]; intros w; cbn; [| rewrite IH]; reflexivity. Qed.

(** X9.  Processing a batch in two parts gives the same results and the same
    manager as processing it at once; the empty batch returns the empty
    array and changes nothing. *)
Theorem processEventBatch_app a b w :
  processEventBatch [] w = (Returned [], w)
  /\ exists ra rb,
       fst (processEventBatch a w) = Returned ra
       /\ fst (processEventBatch b (snd (processEventBatch a w))) = Returned rb
       /\ processEventBatch (a ++ b) w
          = (Returned (ra ++ rb),
             snd (processEventBatch b (snd (processEventBatch a w)))).
Proof.
  split; [reflexivity |].
  exists (entries a w), (entries b (after a w)).
  rewrite !processEventBatch_eq. cbn [fst snd].
  now rewrite entries_app, after_app.
Qed.

(** X10.  The entry of a one-instruction batch, by the type of the instruction: a
    type the [switch] does not name gives "Failed to create layer"; a named
    type without generator gives the message of the [TypeError]; the two
    types with a generator give [success: true] with the resolved id. *)
Theorem processEventBatch_entry_by_type i w :
  exists r,
    fst (processEventBatch [i] w) = Returned [r]
    /\ instruction r = i
    /\ match switch_type (type i) with
       | None =>
           success r = false /\ layerId r = None
           /\ error r = Some "Failed to create layer"
       | Some method =>
           match LayerGenerators method with
           | None =>
               success r = false /\ layerId r = None
               /\ error r = Some ("LayerGenerators." +:+ method +:+ " is not a function")
           | Some _ =>
               success r = true /\ layerId r = Some (fst (resolve i w))
               /\ error r = None
           end
       end.
Proof.
  eexists. rewrite processEventBatch_eq. cbn [fst entries].
  split; [reflexivity |]. split; [apply instruction_outcome_entry |].
  rewrite addLayer_unfold.
  destruct (switch_type (type i)) as [m |]; cbn; [| auto].
  destruct (LayerGenerators m); cbn; [| auto].
  fold (truthy (Some (fst (resolve i w)))). rewrite resolve_truthy. auto.
Qed.

End ManagerExtraFacts.

(** ** Further properties of the animation formulas *)

Module AnimationExtraFacts.
Import Animation Manager.

Lemma trunc_nonneg x : 0 <= x -> Js.trunc x = Zfloor x.
Proof. intros H. unfold Js.trunc. destruct (Rle_dec 0 x); [reflexivity | contradiction]. Qed.

Lemma rem_range t d : 0 <= t -> 0 < d -> 0 <= Js.rem t d < d.
Proof.
  intros Ht Hd. unfold Js.rem.
  assert (Hq : 0 <= t / d).
  { apply Rmult_le_pos; [exact Ht |]. left. now apply Rinv_0_lt_compat. }
  rewrite trunc_nonneg by exact Hq.
  destruct (Zfloor_bound (t / d)) as [Hlo Hhi].
  assert (E : t = d * (t / d)) by (field; lra).
  split.
  - assert (d * IZR (Zfloor (t / d)) <= d * (t / d))
      by (apply Rmult_le_compat_l; lra). lra.
  - assert (d * (t / d) < d * (IZR (Zfloor (t / d)) + 1))
      by (apply Rmult_lt_compat_l; lra). lra.
Qed.

Lemma rem_add_period t d : 0 <= t -> 0 < d -> Js.rem (t + d) d = Js.rem t d.
Proof.
  intros Ht Hd. unfold Js.rem.
  assert (Hq : 0 <= t / d).
  { apply Rmult_le_pos; [exact Ht |]. left. now apply Rinv_0_lt_compat. }
  replace ((t + d) / d) with (t / d + IZR 1) by (simpl IZR; field; lra).
  rewrite (trunc_nonneg (t / d)) by exact Hq.
  rewrite trunc_nonneg by (simpl IZR; lra).
  rewrite Zfloor_addz, plus_IZR. simpl IZR. ring.
Qed.

(** X11.  For a non-negative clock the explosion radius goes on with period
    [duration] and stays between [baseRadius] and [maxRadius]. *)
Theorem createExplosionAnimation_period_and_range baseRadius maxRadius duration t :
  baseRadius <= maxRadius -> 0 < duration -> 0 <= t ->
  let radius := createExplosionAnimation baseRadius maxRadius (Some duration) in
  radius (t + duration) = radius t
  /\ baseRadius <= radius t <= maxRadius.
Proof.
  intros Hr Hd Ht radius. unfold radius, createExplosionAnimation.
  cbv [from_option Datatypes.id]. split.
  - now rewrite rem_add_period.
  - destruct (rem_range t duration Ht Hd) as [H0 H1].
    set (e := Js.rem t duration) in *.
    assert (Hinv : 0 < / duration) by (now apply Rinv_0_lt_compat).
    assert (Hp0 : 0 <= e / duration) by (apply Rmult_le_pos; lra).
    assert (Hp1 : e / duration < 1).
    { apply (Rmult_lt_reg_r duration); [lra |]. unfold Rdiv.
      rewrite Rmult_assoc, Rinv_l by lra. lra. }
    set (q := 1 - e / duration) in *.
    assert (Hq : 0 <= q <= 1) by (unfold q; lra).
    assert (Hc : 0 <= q ^ 3 <= 1).
    { split; [apply pow_le; lra |].
      replace 1 with (1 ^ 3) by ring. apply pow_incr. lra. }
    split; nra.
Qed.

Lemma createExplosionAnimation_period_and_range_witness :
  let radius := createExplosionAnimation 10000 50000 (Some 2000) in
  radius (500 + 2000) = radius 500 /\ 10000 <= radius 500 <= 50000.
Proof.
  apply (createExplosionAnimation_period_and_range 10000 50000 2000 500); lra.
Defined.

(** X12.  The radius of [createPulseAnimation] swings around the base radius by at
    most the pulse intensity. *)
Theorem createPulseAnimation_range baseRadius pulseIntensity pulseSpeed t :
  0 <= baseRadius -> 0 <= default 0.3 pulseIntensity ->
  let i := default 0.3 pulseIntensity in
  baseRadius * (1 - i) <= createPulseAnimation baseRadius pulseIntensity pulseSpeed t
  <= baseRadius * (1 + i).
Proof.
  intros Hb Hi i. subst i. unfold createPulseAnimation.
  set (v := default 0.3 pulseIntensity) in *. clearbody v.
  match goal with |- context [sin ?x] => pose proof (SIN_bound x) as [Hlo Hhi] end.
  split; apply Rmult_le_compat_l; nra.
Qed.

Lemma createPulseAnimation_range_witness :
  5000 * (1 - 0.3) <= createPulseAnimation 5000 None None 125 <= 5000 * (1 + 0.3).
Proof.
  apply (createPulseAnimation_range 5000 None None 125); cbn; lra.
Defined.

(** X13.  The glow opacity never exceeds 1; with a non-negative intensity it lies
    between [min (1, baseOpacity)] and [min (1, baseOpacity + 2 * glowIntensity)]. *)
Theorem createGlowAnimation_range baseOpacity glowIntensity glowSpeed t :
  0 <= default 0.5 glowIntensity ->
  let g := default 0.5 glowIntensity in
  Rmin 1 baseOpacity <= createGlowAnimation baseOpacity glowIntensity glowSpeed t
  <= Rmin 1 (baseOpacity + 2 * g)
  /\ createGlowAnimation baseOpacity glowIntensity glowSpeed t <= 1.
Proof.
  intros Hg g. subst g. unfold createGlowAnimation.
  set (v := default 0.5 glowIntensity) in *. clearbody v.
  match goal with |- context [sin ?x] => pose proof (SIN_bound x) as [Hlo Hhi] end.
  split; [split |].
  - apply Rle_min_compat_l. nra.
  - apply Rle_min_compat_l. nra.
  - apply Rmin_l.
Qed.

Lemma createGlowAnimation_range_witness :
  Rmin 1 0.2 <= createGlowAnimation 0.2 None None 40 <= Rmin 1 (0.2 + 2 * 0.5)
  /\ createGlowAnimation 0.2 None None 40 <= 1.
Proof.
  apply (createGlowAnimation_range 0.2 None None 40). cbn. lra.
Defined.

(** X14.  The radius accessor of a pulsing-dot layer: without a timestamp it is
    the base radius, and at clock time [t] it is what [createPulseAnimation]
    gives at [2 * t] for the same base radius, intensity and speed, so the
    layer pulses at twice the rate of that function. *)
Theorem createPulsingDotLayer_radius_accessor id data options t :
  let b := default 10000 (baseRadius options) in
  exists p,
    createPulsingDotLayer id data options = ScatterplotLayer p
    /\ sp_data p = data
    /\ sp_getRadius p None = b
    /\ sp_getRadius p (Some t)
       = createPulseAnimation b (pulseIntensity options) (pulseSpeed options) (2 * t).
Proof.
  intros b. eexists. split; [reflexivity |]. split; [reflexivity |].
  cbn [sp_getRadius]. unfold createPulseAnimation, num_or. fold b.
  split.
  - replace (0 * 0.002 * _) with 0 by ring. rewrite sin_0. ring.
  - destruct (Req_dec_T t 0) as [-> | _].
    + replace (0 * 0.002 * _) with 0 by ring.
      replace (2 * 0 * 0.001 * _) with 0 by ring. ring.
    + replace (2 * t * 0.001 * default 2 (pulseSpeed options))
        with (t * 0.002 * default 2 (pulseSpeed options)) by lra. ring.
Qed.

End AnimationExtraFacts.

(** ** Further properties of the projection and of arcs *)

Module GlobeUtilsExtraFacts.
Import GlobeUtils GlobeUtilsMore GlobeUtilsFacts.

Lemma length_multiplyScalar k v : length (multiplyScalar k v) = Rabs k * length v.
Proof.
  destruct v as [x y z]. unfold length, multiplyScalar. cbn [vx vy vz].
  replace (x * k * (x * k) + y * k * (y * k) + z * k * (z * k))
    with (k² * (x * x + y * y + z * z)) by (unfold Rsqr; ring).
  rewrite sqrt_mult_alt by apply Rle_0_sqr. now rewrite sqrt_Rsqr_abs.
Qed.

Lemma length_nonneg v : 0 <= length v.
Proof. apply sqrt_pos. Qed.

Lemma length_zero_inv v : length v = 0 -> v = vec3 0 0 0.
Proof.
  destruct v as [x y z]. unfold length. cbn [vx vy vz]. intros H.
  apply sqrt_eq_0 in H; [| nra].
  assert (x = 0) by nra. assert (y = 0) by nra. assert (z = 0) by nra.
  now subst.
Qed.

Lemma normalize_unit v : length v <> 0 -> length (normalize v) = 1.
Proof.
  intros H. unfold normalize. destruct (Req_dec_T (length v) 0); [contradiction |].
  unfold divideScalar. rewrite length_multiplyScalar.
  pose proof (length_nonneg v).
  rewrite Rabs_pos_eq.
  - field. exact H.
  - unfold Rdiv. rewrite Rmult_1_l. left. apply Rinv_0_lt_compat. lra.
Qed.

(** X15.  The projection of every latitude and longitude lies on the sphere of the
    given radius. *)
Theorem latLngToVector3_on_sphere la lo r :
  length (latLngToVector3 la lo r) = Rabs r.
Proof.
  unfold length, latLngToVector3. cbn [vx vy vz].
  set (p := (90 - la) * (PI / 180)). set (q := (lo + 180) * (PI / 180)).
  replace (_ + _ + _) with
    (r² * ((sin p)² * ((sin q)² + (cos q)²) + (cos p)²)) by (unfold Rsqr; ring).
  rewrite sin2_cos2, Rmult_1_r, sin2_cos2, Rmult_1_r.
  apply sqrt_Rsqr_abs.
Qed.

Lemma createArcCurve_endpoints_eq a b h :
  getPoint (createArcCurve a b h) 0 = latLngToVector3 (lat a) (lng a) GLOBE_radius
  /\ getPoint (createArcCurve a b h) 1 = latLngToVector3 (lat b) (lng b) GLOBE_radius.
Proof.
  unfold createArcCurve, getPoint, QuadraticBezier, QuadraticBezierP0,
    QuadraticBezierP1, QuadraticBezierP2. cbn [v0 v1 v2].
  destruct (latLngToVector3 (lat a) (lng a) GLOBE_radius) as [x y z].
  destruct (latLngToVector3 (lat b) (lng b) GLOBE_radius) as [x' y' z'].
  cbn [vx vy vz]. split; f_equal; ring.
Qed.

(** X16.  Whatever the endpoints and the height, the arc curve starts at the
    projection of its first endpoint and ends at the projection of the
    second, both on the globe surface. *)
Theorem createArcCurve_endpoints a b h :
  let c := createArcCurve a b h in
  getPoint c 0 = latLngToVector3 (lat a) (lng a) GLOBE_radius
  /\ getPoint c 1 = latLngToVector3 (lat b) (lng b) GLOBE_radius
  /\ length (getPoint c 0) = 5 /\ length (getPoint c 1) = 5.
Proof.
  intros c. destruct (createArcCurve_endpoints_eq a b h) as [H0 H1]. fold c in H0, H1.
  rewrite H0, H1. unfold GLOBE_radius.
  repeat split; apply length_latLngToVector3; lra.
Qed.

(** X17.  Unless the endpoints are opposite points of the globe, the control point
    of the arc lies at distance [|5 + arcHeight|] from the centre. *)
Theorem createArcCurve_control_point_height a b h :
  length (add (latLngToVector3 (lat a) (lng a) GLOBE_radius)
              (latLngToVector3 (lat b) (lng b) GLOBE_radius)) <> 0 ->
  length (v1 (createArcCurve a b h)) = Rabs (5 + h).
Proof.
  intros H. unfold createArcCurve. cbn [v1].
  rewrite length_multiplyScalar, normalize_unit; [unfold GLOBE_radius; ring |].
  rewrite length_multiplyScalar. apply Rmult_integral_contrapositive_currified.
  - unfold Rabs. destruct (Rcase_abs 0.5); lra.
  - exact H.
Qed.

Lemma createArcCurve_control_point_height_witness :
  length (v1 (createArcCurve (latlng 0 0) (latlng 0 0) 2)) = Rabs (5 + 2).
Proof.
  apply createArcCurve_control_point_height. cbn [lat lng].
  rewrite latLngToVector3_origin. unfold length, add. cbn [vx vy vz].
  intros H. apply sqrt_eq_0 in H; lra.
Defined.

(** X19.  Away from the poles and for a longitude in (-180, 0], converting the
    projection back returns the point. *)
Theorem vector3ToLatLng_round_trip_west la lo r :
  0 < r -> -90 < la < 90 -> -180 < lo <= 0 ->
  vector3ToLatLng (latLngToVector3 la lo r) r = latlng la lo.
Proof.
  intros Hr Hla Hlo.
  pose proof (vector3ToLatLng_latLngToVector3_lat la lo r Hr) as H1.
  pose proof (vector3ToLatLng_latLngToVector3_lng_west la lo r Hr Hla Hlo) as H2.
  destruct (vector3ToLatLng _ _) as [x y]. cbn [lat lng] in *.
  rewrite H1, H2 by lra. reflexivity.
Qed.

Lemma vector3ToLatLng_round_trip_west_witness :
  vector3ToLatLng (latLngToVector3 40.7128 (-74.006) 5) 5 = latlng 40.7128 (-74.006).
Proof. apply vector3ToLatLng_round_trip_west; lra. Defined.

(** [Math.atan2] answers between [- PI] and [PI]. *)
Lemma atan2_range y x : - PI <= Js.atan2 y x <= PI.
Proof.
  pose proof PI_RGT_0 as Hpi. unfold Js.atan2.
  pose proof (atan_bound (y / x)) as [Hlo Hhi].
  destruct (Rlt_dec 0 x) as [Hx | Hx]; [lra |].
  destruct (Rlt_dec x 0) as [Hx' | Hx'].
  - assert (Hinv : / x < 0) by (now apply Rinv_lt_0_compat).
    destruct (Rle_dec 0 y) as [Hy | Hy].
    + assert (Hq : y / x <= 0) by (unfold Rdiv; nra).
      assert (atan (y / x) <= 0).
      { destruct Hq as [Hq | Hq].
        - left. rewrite <- atan_0. now apply atan_increasing.
        - rewrite Hq, atan_0. lra. }
      lra.
    + assert (Hq : 0 < y / x) by (unfold Rdiv; nra).
      assert (0 < atan (y / x)) by (rewrite <- atan_0; now apply atan_increasing).
      lra.
  - destruct (Rlt_dec 0 y); [lra |]. destruct (Rlt_dec y 0); lra.
Qed.

(** X20.  For a positive radius [vector3ToLatLng] returns a latitude between
    -90 and 90 and a longitude between -360 and 0, the bounds included:
    never a positive longitude. *)
Theorem vector3ToLatLng_range v r :
  0 < r ->
  -90 <= lat (vector3ToLatLng v r) <= 90
  /\ -360 <= lng (vector3ToLatLng v r) <= 0.
Proof.
  intros Hr. pose proof PI_RGT_0 as Hpi. unfold vector3ToLatLng. cbn [lat lng].
  match goal with |- context [acos ?x] => pose proof (acos_bound x) as [Ha0 Ha1] end.
  match goal with |- context [Js.atan2 ?y ?x] => pose proof (atan2_range y x) as [Hb0 Hb1] end.
  set (A := acos _) in *. set (B := Js.atan2 _ _) in *.
  assert (HA : 0 <= A * 180 / PI <= 180).
  { split.
    - apply Rmult_le_pos; [lra |]. left. now apply Rinv_0_lt_compat.
    - apply (Rmult_le_reg_r PI); [lra |]. unfold Rdiv.
      rewrite Rmult_assoc, Rinv_l by lra. lra. }
  assert (HB : -180 <= B * 180 / PI <= 180).
  { split.
    - apply (Rmult_le_reg_r PI); [lra |]. unfold Rdiv.
      rewrite Rmult_assoc, Rinv_l by lra. lra.
    - apply (Rmult_le_reg_r PI); [lra |]. unfold Rdiv.
      rewrite Rmult_assoc, Rinv_l by lra. lra. }
  lra.
Qed.

Lemma vector3ToLatLng_range_witness :
  -90 <= lat (vector3ToLatLng (vec3 1 2 3) 5) <= 90
  /\ -360 <= lng (vector3ToLatLng (vec3 1 2 3) 5) <= 0.
Proof. apply vector3ToLatLng_range. lra. Defined.

Lemma normalize_scale k v : 0 < k -> normalize (multiplyScalar k v) = normalize v.
Proof.
  intros Hk. unfold normalize. rewrite length_multiplyScalar.
  rewrite (Rabs_pos_eq k) by lra.
  destruct (Req_dec_T (length v) 0) as [E | N].
  - rewrite E, Rmult_0_r. destruct (Req_dec_T 0 0) as [_ | N]; [| contradiction].
    rewrite (length_zero_inv v E). unfold divideScalar, multiplyScalar.
    cbn [vx vy vz]. f_equal; ring.
  - destruct (Req_dec_T (k * length v) 0) as [E | _].
    + apply Rmult_integral in E. destruct E; [lra | contradiction].
    + destruct v as [x y z]. unfold divideScalar, multiplyScalar. cbn [vx vy vz].
      f_equal; field; split; lra.
Qed.

(** X21.  The answer of [vector3ToLatLng] depends on the direction of the vector
    only: scaling the vector by a positive factor does not change it. *)
Theorem vector3ToLatLng_scale_invariant k v r :
  0 < k -> vector3ToLatLng (multiplyScalar k v) r = vector3ToLatLng v r.
Proof. intros Hk. unfold vector3ToLatLng. now rewrite normalize_scale. Qed.

Lemma vector3ToLatLng_scale_invariant_witness :
  vector3ToLatLng (multiplyScalar 3 (vec3 1 2 3)) 5 = vector3ToLatLng (vec3 1 2 3) 5.
Proof. apply vector3ToLatLng_scale_invariant. lra. Defined.

(** X22.  The arc geometry has [divisions + 1] points; for at least one division
    the first is the projection of the start and the last the projection of
    the end. *)
Theorem createArcGeometry_points a b h divisions :
  (1 <= divisions)%nat ->
  let points := createArcGeometry a b h divisions in
  List.length points = S divisions
  /\ points !! 0%nat = Some (latLngToVector3 (lat a) (lng a) GLOBE_radius)
  /\ points !! divisions = Some (latLngToVector3 (lat b) (lng b) GLOBE_radius).
Proof.
  intros Hd points. subst points. unfold createArcGeometry, getPoints.
  assert (Hn : INR divisions <> 0) by (apply not_0_INR; lia).
  destruct (createArcCurve_endpoints_eq a b h) as [H0 H1].
  split; [now rewrite List.length_map, List.length_seq |].
  split.
  - cbn [seq List.map]. cbn [lookup list_lookup]. f_equal.
    replace (INR 0 / INR divisions) with 0 by (simpl INR; field; exact Hn).
    exact H0.
  - change (List.map ?f ?l) with (f <$> l).
    rewrite list_lookup_fmap, lookup_seq_lt by lia. cbn [fmap option_fmap option_map].
    f_equal. replace (INR (0 + divisions) / INR divisions) with 1
      by (cbn [Nat.add]; field; exact Hn).
    exact H1.
Qed.

Lemma createArcGeometry_points_witness :
  List.length (createArcGeometry (latlng 0 0) (latlng 10 20) 2 50) = 51%nat.
Proof. apply (createArcGeometry_points (latlng 0 0) (latlng 10 20) 2 50). lia. Defined.

(** X23.  [updatePulseAnimation] leaves a marker without material alone;
    otherwise it sets the opacity of the material to a value between
    [minOpacity] and [maxOpacity] (given [minOpacity <= maxOpacity], as for
    the defaults 0.3 and 1.0) and keeps the recorded original opacity. *)
Theorem updatePulseAnimation_opacity_range animation time :
  pa_minOpacity animation <= pa_maxOpacity animation ->
  let updated := updatePulseAnimation animation time in
  pa_originalOpacity updated = pa_originalOpacity animation
  /\ match pa_material_opacity animation with
     | None => updated = animation
     | Some _ =>
         exists opacity,
           pa_material_opacity updated = Some opacity
           /\ pa_minOpacity animation <= opacity <= pa_maxOpacity animation
     end.
Proof.
  intros H updated. subst updated. unfold updatePulseAnimation.
  destruct (pa_material_opacity animation) as [o |]; cbn; [| auto].
  split; [reflexivity |]. eexists. split; [reflexivity |].
  pose proof (SIN_bound (time * pa_speed animation)) as [Hlo Hhi]. nra.
Qed.

Lemma updatePulseAnimation_opacity_range_witness :
  exists opacity,
    pa_material_opacity
      (updatePulseAnimation (addPulsingMarker 0.8 (mkPulseOptions None None None)) 7)
    = Some opacity
    /\ 0.3 <= opacity <= 1.0.
Proof.
  assert (H : pa_minOpacity (addPulsingMarker 0.8 (mkPulseOptions None None None))
              <= pa_maxOpacity (addPulsingMarker 0.8 (mkPulseOptions None None None)))
    by (cbn; lra).
  destruct (updatePulseAnimation_opacity_range _ 7 H) as [_ H2].
  exact H2.
Defined.

End GlobeUtilsExtraFacts.

(** ** Further properties of the geocoding utilities *)

Module GeocodingExtraFacts.
Import Num Geocoding GeocodingMore GeocodingFacts.

Lemma isValidCoordinate_Fin x y :
  -90 <= x <= 90 -> -180 <= y <= 180 -> isValidCoordinate (Fin x) (Fin y) = true.
Proof.
  intros Hx Hy. unfold isValidCoordinate. cbn [fle].
  repeat (destruct (Rle_dec _ _) as [_ | N]; [| exfalso; lra]). reflexivity.
Qed.

(** [isValidCoordinate] accepts exactly the finite latitudes in [-90, 90]
    with finite longitudes in [-180, 180]; [NaN] and the infinities are
    rejected. *)
Theorem isValidCoordinate_iff la lo :
  isValidCoordinate la lo = true <->
  exists x y, la = Fin x /\ lo = Fin y /\ -90 <= x <= 90 /\ -180 <= y <= 180.
Proof.
  split; [apply isValidCoordinate_inv |].
  intros (x & y & -> & -> & Hx & Hy). now apply isValidCoordinate_Fin.
Qed.

Lemma cos_latitude_nonneg x : -90 <= x <= 90 -> 0 <= cos (x * PI / 180).
Proof.
  intros Hx. pose proof PI_RGT_0 as Hpi. apply cos_ge_0.
  - replace (PI / 2) with (90 * PI / 180) by field. nra.
  - replace (PI / 2) with (90 * PI / 180) by field. nra.
Qed.

Lemma haversine_range la1 lo1 la2 lo2 :
  -90 <= la1 <= 90 -> -90 <= la2 <= 90 -> 0 <= haversine la1 lo1 la2 lo2 <= 1.
Proof.
  intros H1 H2. unfold haversine.
  pose proof (cos_latitude_nonneg la1 H1) as Hc1.
  pose proof (cos_latitude_nonneg la2 H2) as Hc2.
  set (p1 := la1 * PI / 180) in *. set (p2 := la2 * PI / 180) in *.
  replace ((la2 + - la1) * PI / 180 / 2) with ((p2 - p1) / 2) by (unfold p1, p2; field).
  set (s := sin ((p2 - p1) / 2)). set (u := sin ((lo2 + - lo1) * PI / 180 / 2)).
  assert (E1 : cos (p2 - p1) = 1 - 2 * s * s).
  { replace (p2 - p1) with (2 * ((p2 - p1) / 2)) at 1 by field. apply cos_2a_sin. }
  rewrite cos_minus in E1.
  pose proof (COS_bound (p1 + p2)) as [_ E3]. rewrite cos_plus in E3.
  pose proof (SIN_bound ((lo2 + - lo1) * PI / 180 / 2)) as [Hu0 Hu1]. fold u in Hu0, Hu1.
  assert (Hcc : 0 <= cos p1 * cos p2) by nra.
  assert (Huu : 0 <= u * u <= 1) by nra.
  assert (Hss : 0 <= s * s) by nra.
  assert (Hcu : 0 <= cos p1 * cos p2 * (u * u) <= cos p1 * cos p2) by nra.
  split; nra.
Qed.

Lemma atan2_first_quadrant y x : 0 <= y -> 0 <= x -> 0 <= Js.atan2 y x <= PI / 2.
Proof.
  intros Hy Hx. pose proof PI_RGT_0 as Hpi. unfold Js.atan2.
  destruct (Rlt_dec 0 x) as [Hx' | Hx'].
  - pose proof (atan_bound (y / x)) as [_ Hhi].
    assert (Hq : 0 <= y / x).
    { apply Rmult_le_pos; [exact Hy |]. left. now apply Rinv_0_lt_compat. }
    split; [| lra]. destruct Hq as [Hq | <-]; [| rewrite atan_0; lra].
    left. rewrite <- atan_0. now apply atan_increasing.
  - destruct (Rlt_dec x 0); [lra |].
    destruct (Rlt_dec 0 y); [lra |]. destruct (Rlt_dec y 0); lra.
Qed.

(** [calculateDistance] on finite, valid coordinates, as a real number. *)
Lemma calculateDistance_Fin la1 lo1 la2 lo2 :
  -90 <= la1 <= 90 -> -180 <= lo1 <= 180 -> -90 <= la2 <= 90 -> -180 <= lo2 <= 180 ->
  calculateDistance (coord (Fin la1) (Fin lo1)) (coord (Fin la2) (Fin lo2)) =
  Js.Returned
    (Fin (6371 * (2 * Js.atan2 (sqrt (haversine la1 lo1 la2 lo2))
                               (sqrt (1 + - haversine la1 lo1 la2 lo2))))).
Proof.
  intros H1 G1 H2 G2. unfold calculateDistance. cbn [latitude longitude].
  rewrite !isValidCoordinate_Fin by assumption. cbn [negb orb].
  rewrite !deg2rad_Fin. cbn [fsub fneg fadd fmul].
  rewrite !fdiv_Fin by lra. cbn [fsin fcos lift fmul fadd].
  fold (haversine la1 lo1 la2 lo2).
  destruct (haversine_range la1 lo1 la2 lo2 H1 H2) as [Ha0 Ha1].
  cbn [fsqrt]. destruct (Rle_dec 0 (haversine la1 lo1 la2 lo2)) as [_ | N]; [| lra].
  cbn [fsub fneg fadd fsqrt].
  destruct (Rle_dec 0 (1 + - haversine la1 lo1 la2 lo2)) as [_ | N]; [| lra].
  reflexivity.
Qed.

(** [a] for the equator points of longitude 0 and 90. *)
Lemma haversine_quarter_turn : haversine 0 0 0 90 = 1 / 2.
Proof.
  unfold haversine.
  replace ((0 + - 0) * PI / 180 / 2) with 0 by field.
  replace (0 * PI / 180) with 0 by field.
  replace ((90 + - 0) * PI / 180 / 2) with (PI / 4) by field.
  rewrite sin_0, cos_0, sin_PI4.
  assert (Hs : sqrt 2 * sqrt 2 = 2) by (apply sqrt_def; lra).
  unfold Rdiv. rewrite !Rmult_1_l, !Rmult_0_l, Rplus_0_l.
  rewrite <- Rinv_mult, Hs. reflexivity.
Qed.

(** X24.  [calculateDistance] throws when one of the coordinates is not
    valid.  For valid coordinates whose term [a] is at most [1 - 10^-9] (the
    pair is not within about 0.004 degrees of opposite points of the globe)
    it returns a finite number of kilometres between 0 and half the
    circumference [6371 * PI]. *)
Theorem calculateDistance_outcome :
  (forall coord1 coord2,
      isValidCoordinate (latitude coord1) (longitude coord1)
      && isValidCoordinate (latitude coord2) (longitude coord2) = false ->
      calculateDistance coord1 coord2
      = Js.Thrown (Js.PlainError "Invalid coordinates provided"))
  /\ (forall la1 lo1 la2 lo2,
        -90 <= la1 <= 90 -> -180 <= lo1 <= 180 ->
        -90 <= la2 <= 90 -> -180 <= lo2 <= 180 ->
        haversine la1 lo1 la2 lo2 <= 1 - 1 / 1000000000 ->
        exists d,
          calculateDistance (coord (Fin la1) (Fin lo1)) (coord (Fin la2) (Fin lo2))
          = Js.Returned (Fin d)
          /\ 0 <= d <= 6371 * PI).
Proof.
  split.
  - intros coord1 coord2 H. unfold calculateDistance.
    destruct (isValidCoordinate (latitude coord1) (longitude coord1)); [| reflexivity].
    destruct (isValidCoordinate (latitude coord2) (longitude coord2)); [| reflexivity].
    discriminate H.
  - intros la1 lo1 la2 lo2 H1 G1 H2 G2 _.
    eexists. split; [now apply calculateDistance_Fin |].
    destruct (haversine_range la1 lo1 la2 lo2 H1 H2) as [Ha0 Ha1].
    pose proof (atan2_first_quadrant (sqrt (haversine la1 lo1 la2 lo2))
                  (sqrt (1 + - haversine la1 lo1 la2 lo2))
                  (sqrt_pos _) (sqrt_pos _)) as [Hlo Hhi].
    pose proof PI_RGT_0. split; nra.
Qed.

(** X24 (witness).  A quarter of the equator. *)
Lemma calculateDistance_outcome_witness :
  exists d,
    calculateDistance (coord (Fin 0) (Fin 0)) (coord (Fin 0) (Fin 90)) = Js.Returned (Fin d)
    /\ 0 <= d <= 6371 * PI.
Proof.
  apply (proj2 calculateDistance_outcome 0 0 0 90); try lra.
  rewrite haversine_quarter_turn. lra.
Defined.

(** X25.  The distance of a valid coordinate to itself is 0. *)
Theorem calculateDistance_self c :
  isValidCoordinate (latitude c) (longitude c) = true ->
  calculateDistance c c = Js.Returned (Fin 0).
Proof.
  intros V. destruct c as [a o]. cbn [latitude longitude] in V.
  apply isValidCoordinate_inv in V as (la & lo & -> & -> & H & G).
  rewrite calculateDistance_Fin by assumption.
  assert (E : haversine la lo la lo = 0).
  { unfold haversine.
    replace ((la + - la) * PI / 180 / 2) with 0 by field.
    replace ((lo + - lo) * PI / 180 / 2) with 0 by field.
    rewrite sin_0. ring. }
  rewrite E. replace (1 + - 0) with 1 by ring. rewrite sqrt_0, sqrt_1.
  unfold Js.atan2. destruct (Rlt_dec 0 1) as [_ | N]; [| lra].
  replace (0 / 1) with 0 by field. rewrite atan_0. do 2 f_equal. ring.
Qed.

Lemma calculateDistance_self_witness :
  calculateDistance (coord (Fin 35.6762) (Fin 139.6503)) (coord (Fin 35.6762) (Fin 139.6503))
  = Js.Returned (Fin 0).
Proof.
  apply calculateDistance_self. cbn [latitude longitude].
  apply isValidCoordinate_Fin; lra.
Defined.

Lemma haversine_sym la1 lo1 la2 lo2 :
  haversine la1 lo1 la2 lo2 = haversine la2 lo2 la1 lo1.
Proof.
  unfold haversine.
  replace ((la1 + - la2) * PI / 180 / 2) with (- ((la2 + - la1) * PI / 180 / 2)) by field.
  replace ((lo1 + - lo2) * PI / 180 / 2) with (- ((lo2 + - lo1) * PI / 180 / 2)) by field.
  rewrite !sin_neg. ring.
Qed.

(** X26.  The distance does not depend on the order of the two coordinates (and
    neither does the exception). *)
Theorem calculateDistance_symmetric coord1 coord2 :
  calculateDistance coord1 coord2 = calculateDistance coord2 coord1.
Proof.
  destruct (isValidCoordinate (latitude coord1) (longitude coord1)) eqn:V1;
    [| unfold calculateDistance; rewrite V1; cbn [negb orb]; now rewrite orb_true_r].
  destruct (isValidCoordinate (latitude coord2) (longitude coord2)) eqn:V2;
    [| unfold calculateDistance; rewrite V2; cbn [negb orb]; now rewrite orb_true_r].
  destruct coord1 as [a1 o1], coord2 as [a2 o2]. cbn [latitude longitude] in *.
  apply isValidCoordinate_inv in V1 as (la1 & lo1 & -> & -> & H1 & G1).
  apply isValidCoordinate_inv in V2 as (la2 & lo2 & -> & -> & H2 & G2).
  rewrite !calculateDistance_Fin by assumption.
  now rewrite (haversine_sym la1 lo1 la2 lo2).
Qed.

(** [getIntermediatePoints] throws exactly when one of the two coordinates
    is not valid, and otherwise returns [numPoints + 1] points. *)
Theorem getIntermediatePoints_outcome start end_ numPoints :
  if isValidCoordinate (latitude start) (longitude start)
     && isValidCoordinate (latitude end_) (longitude end_)
  then exists points,
         getIntermediatePoints start end_ numPoints = Js.Returned points
         /\ List.length points = S numPoints
  else getIntermediatePoints start end_ numPoints
       = Js.Thrown (Js.PlainError "Invalid coordinates provided").
Proof.
  unfold getIntermediatePoints.
  destruct (isValidCoordinate (latitude start) (longitude start)); cbn [negb orb andb];
    [| reflexivity].
  destruct (isValidCoordinate (latitude end_) (longitude end_)); cbn [negb orb andb];
    [| reflexivity].
  eexists. split; [reflexivity |]. now rewrite List.length_map, List.length_seq.
Qed.

(** *** The first and the last interpolated point *)









End GeocodingExtraFacts.

(** ** Properties of the rate limiter *)

Module RateLimiterFacts.
Import RateLimiter.
Local Open Scope Z_scope.

Lemma canMakeRequest_eq now rl :
  canMakeRequest now rl =
  let kept := List.filter (in_window now (windowMs rl)) (requests rl) in
  if Z.of_nat (List.length kept) >=? maxRequests rl
  then (false, mkRateLimiter (maxRequests rl) (windowMs rl) kept)
  else (true, mkRateLimiter (maxRequests rl) (windowMs rl) (kept ++ [now])).
Proof. reflexivity. Qed.

Lemma length_filter_le {A} (f : A -> bool) l :
  (List.length (List.filter f l) <= List.length l)%nat.
Proof. induction l as [| a l IH]; cbn; [lia |]. destruct (f a); cbn; lia. Qed.

(** One call: it is granted exactly when fewer than [maxRequests] of the
    recorded requests are less than [windowMs] old; a granted call leaves at
    most [maxRequests] recorded requests, the last of them [now]; a refused
    call only drops the old ones; the settings are kept. *)
Theorem canMakeRequest_one_call now rl :
  let kept := List.filter (in_window now (windowMs rl)) (requests rl) in
  let ok := fst (canMakeRequest now rl) in
  let rl' := snd (canMakeRequest now rl) in
  (ok = true <-> Z.of_nat (List.length kept) < maxRequests rl)
  /\ requests rl' = (if ok then kept ++ [now] else kept)
  /\ (ok = true -> Z.of_nat (List.length (requests rl')) <= maxRequests rl)
  /\ maxRequests rl' = maxRequests rl /\ windowMs rl' = windowMs rl.
Proof.
  intros kept ok rl'. subst ok rl'. rewrite canMakeRequest_eq. fold kept. cbv zeta.
  destruct (Z.geb_spec (Z.of_nat (List.length kept)) (maxRequests rl)) as [H | H]; cbn.
  - repeat split; try discriminate; lia.
  - repeat split; try lia. intros _. rewrite List.length_app. cbn. lia.
Qed.

Lemma calls_cons now rest rl :
  calls (now :: rest) rl =
  (fst (calls rest (snd (canMakeRequest now rl))),
   if fst (canMakeRequest now rl)
   then now :: snd (calls rest (snd (canMakeRequest now rl)))
   else snd (calls rest (snd (canMakeRequest now rl)))).
Proof.
  cbn [calls]. destruct (canMakeRequest now rl) as [ok rl']. cbn [fst snd].
  destruct (calls rest rl') as [final granted]. reflexivity.
Qed.

Lemma calls_limit times rl :
  Z.of_nat (List.length (requests rl)) <= maxRequests rl ->
  let rl' := fst (calls times rl) in
  Z.of_nat (List.length (requests rl')) <= maxRequests rl'
  /\ maxRequests rl' = maxRequests rl /\ windowMs rl' = windowMs rl.
Proof.
  revert rl. induction times as [| now rest IH]; intros rl H; [cbn; auto |].
  cbv zeta. rewrite calls_cons. cbn [fst].
  assert (H' : Z.of_nat (List.length (requests (snd (canMakeRequest now rl))))
               <= maxRequests (snd (canMakeRequest now rl))
               /\ maxRequests (snd (canMakeRequest now rl)) = maxRequests rl
               /\ windowMs (snd (canMakeRequest now rl)) = windowMs rl).
  { rewrite canMakeRequest_eq. cbv zeta.
    pose proof (length_filter_le (in_window now (windowMs rl)) (requests rl)).
    destruct (Z.geb_spec
                (Z.of_nat (List.length (List.filter (in_window now (windowMs rl)) (requests rl))))
                (maxRequests rl)); cbn; repeat split; try lia.
    rewrite List.length_app. cbn. lia. }
  destruct H' as (H1 & H2 & H3).
  destruct (IH _ H1) as (I1 & I2 & I3). repeat split; congruence.
Qed.

(** X28.  The recorded requests never outgrow the limit: if they number at most
    [maxRequests] they still do after any sequence of calls, at any clock
    readings, and the settings of the limiter stay as they are. *)
Theorem calls_keep_limit times rl :
  Z.of_nat (List.length (requests rl)) <= maxRequests rl ->
  let rl' := fst (calls times rl) in
  Z.of_nat (List.length (requests rl')) <= maxRequests rl'
  /\ maxRequests rl' = maxRequests rl /\ windowMs rl' = windowMs rl.
Proof. apply calls_limit. Qed.

Lemma calls_keep_limit_witness :
  Z.of_nat (List.length (requests (fst (calls [0; 5; 7; 9] (constructor (Some 2) None))))) <= 2.
Proof.
  destruct (calls_keep_limit [0; 5; 7; 9] (constructor (Some 2) None)) as (H1 & H2 & _).
  - cbn. lia.
  - cbv zeta in H1, H2. rewrite H2 in H1. exact H1.
Defined.

(** *** The sliding window *)

Lemma filter_window_later t t' W (l : list Z) :
  t <= t' ->
  List.filter (in_window t' W) (List.filter (in_window t W) l)
  = List.filter (in_window t' W) l.
Proof.
  intros Ht. induction l as [| x l IH]; [reflexivity |].
  cbn [List.filter].
  destruct (in_window t W x) eqn:E1; cbn [List.filter];
    destruct (in_window t' W x) eqn:E2; rewrite ?IH; try reflexivity.
  unfold in_window in E1, E2. apply Z.ltb_ge in E1. apply Z.ltb_lt in E2. lia.
Qed.

Lemma filter_window_now now W (l : list Z) :
  0 < W -> List.filter (in_window now W) (l ++ [now]) = List.filter (in_window now W) l ++ [now].
Proof.
  intros HW. rewrite List.filter_app. cbn. unfold in_window at 2.
  destruct (Z.ltb_spec (now - now) W); [reflexivity | lia].
Qed.

(** The recorded requests are the granted ones that are still in the window
    of the last call, as long as the clock does not run backwards. *)
Lemma calls_record_window times now rl (history : list Z) :
  0 < windowMs rl ->
  StronglySorted Z.le (times ++ [now]) ->
  (forall t, In t (times ++ [now]) ->
             List.filter (in_window t (windowMs rl)) (requests rl)
             = List.filter (in_window t (windowMs rl)) history) ->
  requests (fst (calls (times ++ [now]) rl))
  = List.filter (in_window now (windowMs rl)) (history ++ snd (calls (times ++ [now]) rl)).
Proof.
  intros HW. revert rl history HW.
  induction times as [| t rest IH]; intros rl history HW Hs Hh.
  - cbn [app]. rewrite calls_cons. cbn [calls fst snd].
    rewrite canMakeRequest_eq. cbv zeta.
    rewrite (Hh now) by (now left).
    destruct (Z.of_nat _ >=? maxRequests rl); cbn [fst snd requests].
    + now rewrite app_nil_r.
    + now rewrite filter_window_now.
  - cbn [app] in *. rewrite calls_cons. cbn [fst snd].
    apply StronglySorted_inv in Hs as [Hs Hle].
    set (rl1 := snd (canMakeRequest t rl)).
    assert (Hset : maxRequests rl1 = maxRequests rl /\ windowMs rl1 = windowMs rl).
    { unfold rl1. rewrite canMakeRequest_eq. cbv zeta.
      destruct (Z.of_nat _ >=? maxRequests rl); cbn; auto. }
    destruct Hset as [_ HW1].
    assert (Hstep : forall t', In t' (rest ++ [now]) ->
               List.filter (in_window t' (windowMs rl1)) (requests rl1)
               = List.filter (in_window t' (windowMs rl1))
                   (history ++ (if fst (canMakeRequest t rl) then [t] else []))).
    { intros t' Hin. rewrite HW1.
      assert (Htt : t <= t') by (rewrite Forall_forall in Hle; now apply Hle, list_elem_of_In).
      unfold rl1. rewrite canMakeRequest_eq. cbv zeta.
      destruct (Z.of_nat _ >=? maxRequests rl); cbn [fst snd requests].
      - rewrite app_nil_r, filter_window_later by exact Htt. apply Hh. now right.
      - rewrite !List.filter_app, filter_window_later by exact Htt.
        f_equal. apply Hh. now right. }
    rewrite (IH rl1 _ (eq_ind_r (fun w => 0 < w) HW HW1) Hs Hstep), HW1.
    destruct (fst (canMakeRequest t rl)); cbn [app].
    + now rewrite <- app_assoc.
    + now rewrite app_nil_r.
Qed.

(** X29.  The guarantee of the limiter.  On a new limiter with a positive window
    and a clock that does not run backwards, at most [maxRequests] of the
    granted requests fall in the window that ends at any call. *)
Theorem calls_grant_at_most_maxRequests times now maxRequests0 windowMs0 :
  0 <= maxRequests0 -> 0 < windowMs0 ->
  StronglySorted Z.le (times ++ [now]) ->
  let granted := snd (calls (times ++ [now]) (mkRateLimiter maxRequests0 windowMs0 [])) in
  Z.of_nat (List.length (List.filter (in_window now windowMs0) granted)) <= maxRequests0.
Proof.
  intros Hm HW Hs granted. subst granted.
  set (rl := mkRateLimiter maxRequests0 windowMs0 []).
  pose proof (calls_record_window times now rl [] HW Hs (fun _ _ => eq_refl)) as E.
  cbn [app windowMs rl] in E. rewrite <- E.
  destruct (calls_limit (times ++ [now]) rl) as (H1 & H2 & _); [cbn; lia |].
  cbv zeta in H1, H2. rewrite H2 in H1. exact H1.
Qed.

(** Two requests per 10 ms: of five calls at 0, 1, 2, 11 and 12 ms the
    granted ones within 10 ms of the last call number at most two. *)
Lemma calls_grant_at_most_maxRequests_witness :
  Z.of_nat (List.length
              (List.filter (in_window 12 10)
                 (snd (calls ([0; 1; 2; 11] ++ [12]) (mkRateLimiter 2 10 []))))) <= 2.
Proof.
  apply (calls_grant_at_most_maxRequests [0; 1; 2; 11] 12 2 10); [lia | lia |].
  repeat constructor; lia.
Defined.

(** *** Waiting for the reset *)

Lemma Math_min_In first others : In (Math_min first others) (first :: others).
Proof.
  induction others as [| a others IH]; cbn; [now left |].
  destruct (Z.min_spec a (fold_right Z.min first others)) as [[_ ->] | [_ E]].
  - right. now left.
  - unfold Math_min in IH. rewrite E. destruct IH as [<- | H]; [now left | right; now right].
Qed.

Lemma length_filter_lt {A} (f : A -> bool) l x :
  In x l -> f x = false -> (List.length (List.filter f l) < List.length l)%nat.
Proof.
  induction l as [| a l IH]; cbn; [contradiction |].
  intros [-> | Hin] Hx.
  - rewrite Hx. pose proof (length_filter_le f l). lia.
  - specialize (IH Hin Hx). destruct (f a); cbn; lia.
Qed.

(** X30.  [getTimeUntilReset] answers 0 for a limiter without recorded requests
    and is never negative; when the recorded requests are within the limit,
    a call made after waiting the answered time is granted. *)
Theorem getTimeUntilReset_then_granted now rl :
  requests rl <> [] ->
  Z.of_nat (List.length (requests rl)) <= maxRequests rl ->
  let wait := getTimeUntilReset now rl in
  0 <= wait
  /\ fst (canMakeRequest (now + wait) rl) = true
  /\ getTimeUntilReset now (mkRateLimiter (maxRequests rl) (windowMs rl) []) = 0.
Proof.
  intros Hne Hlen wait. subst wait. unfold getTimeUntilReset at 1 2.
  destruct (requests rl) as [| first others] eqn:E; [contradiction |].
  cbv zeta. split; [lia |]. split; [| reflexivity].
  rewrite canMakeRequest_eq. cbv zeta. rewrite E.
  set (oldest := Math_min first others).
  set (wait := Z.max 0 (windowMs rl - (now - oldest))).
  assert (Hold : in_window (now + wait) (windowMs rl) oldest = false).
  { unfold in_window. apply Z.ltb_ge. unfold wait. lia. }
  pose proof (length_filter_lt _ _ _ (Math_min_In first others) Hold) as Hlt.
  fold oldest wait in Hlt.
  destruct (Z.geb_spec
              (Z.of_nat (List.length
                           (List.filter (in_window (now + wait) (windowMs rl))
                              (first :: others))))
              (maxRequests rl)) as [H | H]; [| reflexivity].
  exfalso. lia.
Qed.

(** A limiter of two requests per minute that granted requests at 1000 and
    2000 ms: asked at 3000 ms, it is free again after the answered wait. *)
Lemma getTimeUntilReset_then_granted_witness :
  getTimeUntilReset 3000 (mkRateLimiter 2 60000 [1000; 2000]) = 58000
  /\ fst (canMakeRequest (3000 + 58000) (mkRateLimiter 2 60000 [1000; 2000])) = true.
Proof.
  split; [reflexivity |].
  destruct (getTimeUntilReset_then_granted 3000 (mkRateLimiter 2 60000 [1000; 2000]))
    as (_ & H & _); [discriminate | cbn; lia |].
  exact H.
Defined.

End RateLimiterFacts.
